(** * Replication manager: reconciliation of replica counts

    A shallow embedding of the replication controller of
    [src/pkg/registry/pod/rest.go] (package [controller]):
    [RealPodControl.createReplica], [RealPodControl.deletePod],
    [NewReplicationManager], [Run], [watchControllers], [filterActivePods],
    [syncReplicationController] and [synchronize].

    - Go's [int] is taken as the 64-bit signed integer and [uint64] as the
      64-bit unsigned one; both are [Z] with the wrap-around written out.
    - A Go [map] is a reference: label maps live in a heap, and a struct that
      is copied (a [ReplicationController] passed by value) still points to
      the same map object.
    - The cluster client ([client.Interface]) is external.  Every call is
      appended to a trace, and the answer is an arbitrary function of the
      trace so far: theorems that quantify over the client hold for every
      behaviour of the cluster, every pattern of failures included.
    - Goroutines started in a loop and joined by a [sync.WaitGroup] are run
      one after the other in an order chosen by a scheduler, which may
      depend on the history; theorems hold for every scheduler that runs
      each started goroutine once.  The body of a goroutine is one step:
      the requests of two goroutines of a batch, and of two handlers of a
      sweep, do not alternate in the trace.  A panic (an index out of
      range, a negative wait-group counter) ends the process.
    - The counter of a [sync.WaitGroup] is an [int32]: [wait.Add] truncates
      its argument to 32 bits.
    - The creating goroutines of one reconciliation write one and the same
      label map and take no lock.  The language does not define the outcome
      of such a race; a runtime that checks map accesses stops the process
      when it catches two of them overlapping.  Whether it does is a second
      choice of the environment, [racy], beside the order of the
      goroutines. *)

From stdpp Require Import gmap strings list pretty.

(** ** Machine integers *)

Definition two63 : Z := 9223372036854775808.
Definition two64 : Z := 18446744073709551616.
Definition int_min : Z := (- two63)%Z.
Definition int_max : Z := (two63 - 1)%Z.
Definition uint64_max : Z := (two64 - 1)%Z.

(** The value an [int] expression takes after two's-complement wrap-around. *)
Definition wrap_int (z : Z) : Z := ((z + two63) `mod` two64 - two63)%Z.
Definition int_sub (a b : Z) : Z := wrap_int (a - b).
Definition int_mul (a b : Z) : Z := wrap_int (a * b).
Definition uint64_add (a b : Z) : Z := ((a + b) `mod` two64)%Z.

Definition two31 : Z := 2147483648.
Definition two32 : Z := 4294967296.
(** The conversion [int32(z)] of an [int]. *)
Definition wrap_int32 (z : Z) : Z := ((z + two31) `mod` two32 - two31)%Z.

Definition is_int (z : Z) : Prop := (int_min ≤ z ≤ int_max)%Z.
Definition is_uint64 (z : Z) : Prop := (0 ≤ z ≤ uint64_max)%Z.

(** Go's builtin [len], whose result is an [int]. *)
Definition len {A} (l : list A) : Z := Z.of_nat (length l).

(** ** Data model (package [api], the fields the controller reads) *)

Definition error := string.

(** The identity of a Go map object. *)
Definition loc := positive.

Definition PodCondition := string.
Definition PodWaiting : PodCondition := "Waiting".
Definition PodRunning : PodCondition := "Running".
Definition PodTerminated : PodCondition := "Terminated".

(** The content of a pod specification is copied and never inspected. *)
Definition PodSpec := string.

Record PodStatus := { Condition : PodCondition }.

Record Pod := {
  Pod_ID : string;
  Pod_Labels : option loc;          (* nil, or a reference to a label map *)
  Pod_Spec : PodSpec;
  Pod_Status : PodStatus;
}.

Record PodList := { Pod_Items : list Pod }.

Record PodTemplate := {
  Tpl_Labels : option loc;
  Tpl_Spec : PodSpec;
}.

Record ReplicationControllerSpec := {
  Replicas : Z;                     (* Go int *)
  Selector : gmap string string;
  Template : PodTemplate;           (* field PodTemplate *)
}.

Record ReplicationController := {
  RC_ID : string;
  RC_Namespace : string;
  RC_ResourceVersion : Z;           (* Go uint64 *)
  RC_Spec : ReplicationControllerSpec;
}.

Record ReplicationControllerList := { RC_Items : list ReplicationController }.

(** [api.Context] carries the namespace of a request. *)
Record Context := { ctx_namespace : option string }.
Definition NewContext : Context := {| ctx_namespace := None |}.
Definition WithNamespace (parent : Context) (namespace : string) : Context :=
  {| ctx_namespace := Some namespace |}.

(** Package [labels]: selectors are built here and evaluated by the cluster. *)
Inductive LabelSelector :=
  | Everything
  | SelectorFromSet (ls : gmap string string).
Definition AsSelector (ls : gmap string string) : LabelSelector := SelectorFromSet ls.

(** Package [watch]: an event carries a kind and an object of any type. *)
Inductive EventType := Added | Modified | Deleted.

Inductive Object :=
  | ObjReplicationController (rc : ReplicationController)
  | ObjPod (pod : Pod)
  | ObjStatus (message : string).

Record Event := { Ev_Type : EventType; Ev_Object : Object }.

(** ** The observable world *)

(** What the program does to the outside, in the order it does it: calls on
    the pod-control interface, requests to the cluster client, and the lines
    logged at error level. *)
Inductive Action :=
  | CallCreateReplica (ctx : Context) (controllerSpec : ReplicationController)
  | CallDeletePod (ctx : Context) (podID : string)
  | ReqListPods (ctx : Context) (s : LabelSelector)
  | ReqCreatePod (ctx : Context) (pod : Pod) (sent : option (gmap string string))
  | ReqDeletePod (ctx : Context) (podID : string)
  | ReqWatchReplicationControllers
      (ctx : Context) (label field : LabelSelector) (resourceVersion : Z)
  | ReqListReplicationControllers (ctx : Context) (s : LabelSelector)
  | GlogErrorf (format : string) (arg : string).

Record World := {
  heap : gmap loc (gmap string string);   (* the label maps, by identity *)
  trace : list Action;                    (* oldest first *)
}.

Definition emit (a : Action) (w : World) : World :=
  {| heap := heap w; trace := trace w ++ [a] |}.

(** [client.Interface]: the answer to a request, given the history. *)
Record Interface := {
  ListPods : list Action → Context → LabelSelector → PodList + error;
  CreatePod : list Action → Context → Pod → option (gmap string string) → option error;
  DeletePod : list Action → Context → string → option error;
  WatchReplicationControllers :
    list Action → Context → LabelSelector → LabelSelector → Z → option error;
  ListReplicationControllers :
    list Action → Context → LabelSelector → ReplicationControllerList + error;
}.

(** ** Computations: state passing, with panics *)

Inductive Res (A : Type) :=
  | Ret (a : A)
  | Panic.
Arguments Ret {A} a.
Arguments Panic {A}.

Definition M (A : Type) : Type := World → Res A * World.

Definition ret {A} (a : A) : M A := λ w, (Ret a, w).
Definition panic {A} : M A := λ w, (Panic, w).
Definition bind {A B} (m : M A) (k : A → M B) : M B :=
  λ w, match m w with
       | (Ret a, w') => k a w'
       | (Panic, w') => (Panic, w')
       end.

Notation "x <~ m ;; k" := (bind m (λ x, k))
  (at level 100, m at next level, k at level 200, right associativity,
   format "'[v' x  <~  m  ;;  '/' k ']'").
Notation "m ;;; k" := (bind m (λ _, k))
  (at level 100, k at level 200, right associativity).

Definition tell (a : Action) : M unit := λ w, (Ret tt, emit a w).

(** The format of the error line of [createReplica]: [%#v] and a line feed. *)
Definition createErrorFormat : string :=
  "%#v" +:+ String (Ascii.Ascii false true false true false false false false) "".

Definition glog_Errorf (format arg : string) : M unit := tell (GlogErrorf format arg).

(** [m[key] = value] on the map object at [l]. *)
Definition map_store (l : loc) (key value : string) : M unit :=
  λ w, (Ret tt, {| heap := alter (insert key value) l (heap w); trace := trace w |}).

(** What a request serialises of a label map at the time of the call. *)
Definition read_labels (h : gmap loc (gmap string string)) (labels : option loc)
    : option (gmap string string) :=
  match labels with
  | Some l => h !! l
  | None => None
  end.

Section client_calls.
Variable c : Interface.

Definition call_ListPods (ctx : Context) (s : LabelSelector) : M (PodList + error) :=
  λ w, (Ret (ListPods c (trace w) ctx s), emit (ReqListPods ctx s) w).

Definition call_CreatePod (ctx : Context) (pod : Pod) : M (option error) :=
  λ w, let sent := read_labels (heap w) (Pod_Labels pod) in
       (Ret (CreatePod c (trace w) ctx pod sent), emit (ReqCreatePod ctx pod sent) w).

Definition call_DeletePod (ctx : Context) (podID : string) : M (option error) :=
  λ w, (Ret (DeletePod c (trace w) ctx podID), emit (ReqDeletePod ctx podID) w).

Definition call_WatchReplicationControllers
    (ctx : Context) (label field : LabelSelector) (resourceVersion : Z) : M (option error) :=
  λ w, (Ret (WatchReplicationControllers c (trace w) ctx label field resourceVersion),
        emit (ReqWatchReplicationControllers ctx label field resourceVersion) w).

Definition call_ListReplicationControllers (ctx : Context) (s : LabelSelector)
    : M (ReplicationControllerList + error) :=
  λ w, (Ret (ListReplicationControllers c (trace w) ctx s),
        emit (ReqListReplicationControllers ctx s) w).
End client_calls.

(** ** The controller (package [controller]) *)

(** [PodControlInterface] knows how to add or delete pods. *)
Record PodControlInterface := {
  createReplica : Context → ReplicationController → M unit;
  deletePod : Context → string → M (option error);
}.

(** A method call through the interface is an observable action. *)
Definition invoke_createReplica (p : PodControlInterface)
    (ctx : Context) (controllerSpec : ReplicationController) : M unit :=
  tell (CallCreateReplica ctx controllerSpec) ;;;
  createReplica p ctx controllerSpec.

Definition invoke_deletePod (p : PodControlInterface)
    (ctx : Context) (podID : string) : M (option error) :=
  tell (CallDeletePod ctx podID) ;;;
  deletePod p ctx podID.

(** The pod literal of [createReplica]: the template's specification and
    the template's label map itself (the reference, not a copy). *)
Definition replicaPod (controllerSpec : ReplicationController) : Pod :=
  {| Pod_ID := "";
     Pod_Labels := Tpl_Labels (Template (RC_Spec controllerSpec));
     Pod_Spec := Tpl_Spec (Template (RC_Spec controllerSpec));
     Pod_Status := {| Condition := "" |} |}.

(** [RealPodControl] is the default implementation. *)
Definition RealPodControl_createReplica (kubeClient : Interface)
    (ctx : Context) (controllerSpec : ReplicationController) : M unit :=
  let labels := Tpl_Labels (Template (RC_Spec controllerSpec)) in
  match labels with
  | Some l => map_store l "replicationController" (RC_ID controllerSpec)
  | None => ret tt
  end ;;;
  let pod := replicaPod controllerSpec in
  err <~ call_CreatePod kubeClient ctx pod ;;
  match err with
  | Some e => glog_Errorf createErrorFormat e
  | None => ret tt
  end.

Definition RealPodControl_deletePod (kubeClient : Interface)
    (ctx : Context) (podID : string) : M (option error) :=
  call_DeletePod kubeClient ctx podID.

Definition RealPodControl (kubeClient : Interface) : PodControlInterface :=
  {| createReplica := RealPodControl_createReplica kubeClient;
     deletePod := RealPodControl_deletePod kubeClient |}.

(** [ReplicationManager]; the channel [syncTime] is part of the input of
    the watch loop below. *)
Record ReplicationManager := {
  kubeClient : Interface;
  podControl : PodControlInterface;
  syncHandler : ReplicationController → M (option error);
}.

Definition filterActivePods (pods : list Pod) : list Pod :=
  filter (λ value, PodTerminated ≠ Condition (Pod_Status value)) pods.

(** [diff := len(filteredList) - controllerSpec.Spec.Replicas] *)
Definition replicaDiff (filteredList : list Pod) (controllerSpec : ReplicationController) : Z :=
  int_sub (len filteredList) (Replicas (RC_Spec controllerSpec)).

(** [wait.Add(delta)] on a fresh [sync.WaitGroup].  The counter is an
    [int32]: [delta] is truncated to 32 bits, and the call panics when the
    counter it leaves is negative.  The value is that counter. *)
Definition WaitGroup_Add (delta : Z) : M Z :=
  let counter := wrap_int32 delta in
  if (counter <? 0)%Z then panic else ret counter.

(** The goroutines of one fan-out, run in the given order.  A panic in a
    goroutine ends the process. *)
Fixpoint run_goroutines (body : nat → M unit) (order : list nat) : M unit :=
  match order with
  | [] => ret tt
  | ix :: rest => body ix ;;; run_goroutines body rest
  end.

(** The body of a deleting goroutine of [syncReplicationController]. *)
Definition deleteGoroutine (p : PodControlInterface) (ctx : Context)
    (filteredList : list Pod) (ix : nat) : M unit :=
  match filteredList !! ix with
  | Some pod => invoke_deletePod p ctx (Pod_ID pod) ;;; ret tt
  | None => panic                     (* index out of range *)
  end.

Section controller.
(** The order in which the [n] goroutines of a fan-out take effect. *)
Variable schedule : list Action → nat → list nat.

(** Whether the runtime catches two unsynchronised accesses to one map
    overlapping, at this point of the history. *)
Variable racy : list Action → bool.

(** [n] goroutines, each run to its end. *)
Definition fan_out (n : nat) (body : nat → M unit) : M unit :=
  λ w, run_goroutines body (schedule (trace w) n) w.

(** [wait.Add(delta); for i := 0; i < delta; i++ { go func() { defer
    wait.Done(); body(i) }() }; wait.Wait()].

    When the counter that [wait.Add] leaves is the number of goroutines,
    each [Done] takes one off and the wait returns after the last.  When it
    is smaller (a [delta] of 2^32 or more, truncated), the [Done] of the
    goroutine that ends after the counter has reached zero takes it below
    zero and panics.  When it is larger (a negative [delta] whose
    truncation is positive) nothing is started and the wait never returns;
    [Panic] stands for that too. *)
Definition fan_out_wait (delta : Z) (body : nat → M unit) : M unit :=
  counter <~ WaitGroup_Add delta ;;
  let n := Z.to_nat delta in
  if (counter =? Z.of_nat n)%Z then fan_out n body
  else if (counter <? Z.of_nat n)%Z then
    λ w, (Panic,
          snd (run_goroutines body (take (S (Z.to_nat counter)) (schedule (trace w) n)) w))
  else λ w, (Panic, snd (fan_out n body w)).

(** The creating goroutines of one batch all write the label map of the
    one specification they share (the [createReplica] of [RealPodControl]
    does, when the map is not nil), and none takes a lock.  With two or
    more of them, a goroutine whose access the runtime catches overlapping
    another's ends the process ("fatal error: concurrent map writes").  A
    pod control that does not write the map cannot stop this way; for it
    the model allows a stop that cannot happen. *)
Definition labelMapRace (goroutines : nat) (controllerSpec : ReplicationController)
    : M unit :=
  λ w, if (1 <? goroutines)
          && bool_decide (Tpl_Labels (Template (RC_Spec controllerSpec)) ≠ None)
          && racy (trace w)
       then (Panic, w) else (Ret tt, w).

(** The body of a creating goroutine of [syncReplicationController], one of
    [goroutines]. *)
Definition createGoroutine (p : PodControlInterface) (ctx : Context)
    (controllerSpec : ReplicationController) (goroutines : nat) (i : nat) : M unit :=
  labelMapRace goroutines controllerSpec ;;;
  invoke_createReplica p ctx controllerSpec.

Definition syncReplicationController (rm : ReplicationManager)
    (controllerSpec : ReplicationController) : M (option error) :=
  let s := AsSelector (Selector (RC_Spec controllerSpec)) in
  let ctx := WithNamespace NewContext (RC_Namespace controllerSpec) in
  r <~ call_ListPods (kubeClient rm) ctx s ;;
  match r with
  | inr err => ret (Some err)
  | inl podList =>
      let filteredList := filterActivePods (Pod_Items podList) in
      let diff := replicaDiff filteredList controllerSpec in
      if (diff <? 0)%Z then
        let diff := int_mul diff (-1) in
        fan_out_wait diff
          (createGoroutine (podControl rm) ctx controllerSpec (Z.to_nat diff)) ;;;
        ret None
      else if (0 <? diff)%Z then
        fan_out_wait diff (deleteGoroutine (podControl rm) ctx filteredList) ;;;
        ret None
      else ret None
  end.

Definition synchronize (rm : ReplicationManager) : M unit :=
  let ctx := NewContext in
  r <~ call_ListReplicationControllers (kubeClient rm) ctx Everything ;;
  match r with
  | inr err => glog_Errorf "Synchronization error: %v (%#v)" err
  | inl list =>
      let controllerSpecs := RC_Items list in
      fan_out_wait (len controllerSpecs)
        (λ ix, match controllerSpecs !! ix with
               | Some spec =>
                   err <~ syncHandler rm spec ;;
                   match err with
                   | Some e => glog_Errorf "Error synchronizing: %#v" e
                   | None => ret tt
                   end
               | None => panic
               end)
  end.

(** [NewReplicationManager]: the handler field is nil until it is set to
    the manager's own [syncReplicationController]. *)
Definition NewReplicationManager (kubeClient : Interface) : ReplicationManager :=
  let rm := {| kubeClient := kubeClient;
               podControl := RealPodControl kubeClient;
               syncHandler := λ _, panic |} in
  {| kubeClient := kubeClient;
     podControl := podControl rm;
     syncHandler := syncReplicationController rm |}.

(** *** The watch loop

    [watchControllers] as a machine with the program points that matter:
    before the watch is opened (or after the function has returned and
    [util.Forever] is about to call it again), at the [select], and
    between the cursor assignment and the call of the handler.  The input
    is what the two channels of the [select] deliver, in order. *)
Inductive Select :=
  | SelTick                   (* <-rm.syncTime *)
  | SelRecv (event : Event)   (* event, open := <-watching.ResultChan(), open *)
  | SelClosed.                (* the same receive, with open = false *)

Inductive Control :=
  | Disconnected
  | Selecting
  | Syncing (rc : ReplicationController)
  | Crashed.

Record Machine := {
  pc : Control;
  resourceVersion : Z;        (* the uint64 that watchControllers points to *)
  world : World;
  input : list Select;
}.

(** Back in the loop after a call that returned; a call that panicked
    leaves the machine crashed, with the cursor and the input as they were. *)
Definition resume {A} (m : Machine) (r : Res A * World) (next : Control) : Machine :=
  match r with
  | (Ret _, w) => {| pc := next; resourceVersion := resourceVersion m;
                     world := w; input := input m |}
  | (Panic, w) => {| pc := Crashed; resourceVersion := resourceVersion m;
                     world := w; input := input m |}
  end.

Definition step (rm : ReplicationManager) (m : Machine) : option Machine :=
  match pc m with
  | Disconnected =>
      let ctx := NewContext in
      match call_WatchReplicationControllers (kubeClient rm) ctx
              Everything Everything (resourceVersion m) (world m) with
      | (Ret (Some err), w) =>
          (* log, sleep five seconds, return *)
          Some (resume m (glog_Errorf "Unexpected failure to watch: %v" err w) Disconnected)
      | (Ret None, w) =>
          Some {| pc := Selecting; resourceVersion := resourceVersion m;
                  world := w; input := input m |}
      | (Panic, w) =>
          Some {| pc := Crashed; resourceVersion := resourceVersion m;
                  world := w; input := input m |}
      end
  | Selecting =>
      match input m with
      | [] => None                              (* blocked in the select *)
      | SelTick :: rest =>
          Some (resume {| pc := pc m; resourceVersion := resourceVersion m;
                          world := world m; input := rest |}
                       (synchronize rm (world m)) Selecting)
      | SelClosed :: rest =>
          Some {| pc := Disconnected; resourceVersion := resourceVersion m;
                  world := world m; input := rest |}
      | SelRecv event :: rest =>
          match Ev_Object event with
          | ObjReplicationController rc =>
              Some {| pc := Syncing rc;
                      resourceVersion := uint64_add (RC_ResourceVersion rc) 1;
                      world := world m; input := rest |}
          | _ =>
              Some (resume {| pc := pc m; resourceVersion := resourceVersion m;
                              world := world m; input := rest |}
                           (glog_Errorf "unexpected object: %#v" "" (world m)) Selecting)
          end
      end
  | Syncing rc => Some (resume m (syncHandler rm rc (world m)) Selecting)
  | Crashed => None
  end.

Fixpoint steps (rm : ReplicationManager) (n : nat) (m : Machine) : Machine :=
  match n with
  | O => m
  | S n' => match step rm m with
            | Some m' => steps rm n' m'
            | None => m
            end
  end.

(** [Run]: the cursor starts at 0 and the watch loop is called forever. *)
Definition Run (w : World) (deliveries : list Select) : Machine :=
  {| pc := Disconnected; resourceVersion := 0; world := w; input := deliveries |}.
End controller.

(** ** Fixtures: schedulers, clusters and specifications used in examples *)

Definition in_order : list Action → nat → list nat := λ _ n, seq 0 n.
Definition last_first : list Action → nat → list nat := λ _ n, reverse (seq 0 n).

(** A runtime that catches no overlapping map access, and one that catches
    the access of the goroutine that runs after a first pod was requested. *)
Definition never : list Action → bool := λ _, false.
Definition after_first_create : list Action → bool :=
  λ h, existsb (λ a, match a with ReqCreatePod _ _ _ => true | _ => false end) h.

Definition mkPod (id : string) (cond : PodCondition) : Pod :=
  {| Pod_ID := id; Pod_Labels := None; Pod_Spec := "nginx";
     Pod_Status := {| Condition := cond |} |}.

(** A cluster that lists [pods], fails the create and delete requests made
    after fewer than four earlier actions, and fails to open a watch when
    [watch_err] is set. *)
Definition flaky (h : list Action) : option error :=
  if length h <? 4 then Some "connection refused" else None.

Definition cluster (pods : list Pod) (watch_err : option error) : Interface :=
  {| ListPods := λ _ _ _, inl {| Pod_Items := pods |};
     CreatePod := λ h _ _ _, flaky h;
     DeletePod := λ h _ _, flaky h;
     WatchReplicationControllers := λ _ _ _ _ _, watch_err;
     ListReplicationControllers := λ _ _ _, inl {| RC_Items := [] |} |}.

(** A cluster whose pod listing fails. *)
Definition unreachable : Interface :=
  {| ListPods := λ _ _ _, inr "etcd down";
     CreatePod := λ _ _ _ _, None;
     DeletePod := λ _ _ _, None;
     WatchReplicationControllers := λ _ _ _ _ _, Some "etcd down";
     ListReplicationControllers := λ _ _ _, inr "etcd down" |}.

(** The specification "web" with [replicas] replicas at resource version
    [version]; its template's label map is the object at location 1. *)
Definition web (replicas version : Z) : ReplicationController :=
  {| RC_ID := "web"; RC_Namespace := "default"; RC_ResourceVersion := version;
     RC_Spec := {| Replicas := replicas;
                   Selector := {["app" := "web"]};
                   Template := {| Tpl_Labels := Some 1%positive; Tpl_Spec := "nginx" |} |} |}.

Definition web_ctx : Context := WithNamespace NewContext "default".

Definition world0 : World :=
  {| heap := {[ 1%positive := {["app" := "web"]} ]}; trace := [] |}.

(** The same world with a second label map, which belongs to no template. *)
Definition world_two_maps : World :=
  {| heap := {[ 1%positive := {["app" := "web"]}; 2%positive := {["app" := "db"]} ]};
     trace := [] |}.

Definition five_pods : list Pod :=
  [mkPod "a" PodRunning; mkPod "b" PodTerminated; mkPod "c" PodRunning;
   mkPod "d" PodWaiting; mkPod "e" PodRunning; mkPod "f" PodRunning].

(** The actions a computation added to the trace. *)
Definition issued (before after : World) : list Action :=
  drop (length (trace before)) (trace after).

Definition is_CallCreateReplica (a : Action) : bool :=
  match a with CallCreateReplica _ _ => true | _ => false end.
Definition is_CallDeletePod (a : Action) : bool :=
  match a with CallDeletePod _ _ => true | _ => false end.
Definition is_ReqCreatePod (a : Action) : bool :=
  match a with ReqCreatePod _ _ _ => true | _ => false end.
Definition is_ReqDeletePod (a : Action) : bool :=
  match a with ReqDeletePod _ _ => true | _ => false end.
Definition is_Glog (a : Action) : bool :=
  match a with GlogErrorf _ _ => true | _ => false end.

(** The calls on the pod-control interface among some actions, in order,
    and the create and delete requests that reached the cluster. *)
Definition podControlCalls (l : list Action) : list Action :=
  List.filter (λ a, is_CallCreateReplica a || is_CallDeletePod a) l.
Definition createRequests (l : list Action) : list Action :=
  List.filter is_ReqCreatePod l.
Definition deleteRequests (l : list Action) : list Action :=
  List.filter is_ReqDeletePod l.

(** The pods the deleting goroutines pick, in the order they run. *)
Definition picked (filteredList : list Pod) (order : list nat) : list Pod :=
  omap (λ ix, filteredList !! ix) order.

Definition deleteActions (ctx : Context) (pod : Pod) : list Action :=
  [CallDeletePod ctx (Pod_ID pod); ReqDeletePod ctx (Pod_ID pod)].

(** The heap after [createReplica] has stamped the template's label map. *)
Definition stamped (controllerSpec : ReplicationController)
    (h : gmap loc (gmap string string)) : gmap loc (gmap string string) :=
  match Tpl_Labels (Template (RC_Spec controllerSpec)) with
  | Some l => alter (insert "replicationController" (RC_ID controllerSpec)) l h
  | None => h
  end.

(** The error line [createReplica] logs for the answer to its request. *)
Definition createLog (answer : option error) : list Action :=
  match answer with
  | Some e => [GlogErrorf createErrorFormat e]
  | None => []
  end.

(** The context and the selector of the pod listing of a specification. *)
Definition specContext (controllerSpec : ReplicationController) : Context :=
  WithNamespace NewContext (RC_Namespace controllerSpec).
Definition specSelector (controllerSpec : ReplicationController) : LabelSelector :=
  AsSelector (Selector (RC_Spec controllerSpec)).

(** A stream respects the cursor when every replication controller it
    delivers has a resource version at or after the cursor of that moment,
    one that can still be incremented. *)
Fixpoint ordered_from (cursor : Z) (deliveries : list Select) : Prop :=
  match deliveries with
  | [] => True
  | SelRecv event :: rest =>
      match Ev_Object event with
      | ObjReplicationController rc =>
          is_uint64 (RC_ResourceVersion rc)
          ∧ (cursor ≤ RC_ResourceVersion rc < uint64_max)%Z
          ∧ ordered_from (RC_ResourceVersion rc + 1) rest
      | _ => ordered_from cursor rest
      end
  | _ :: rest => ordered_from cursor rest
  end.

(** The cursor never decreases along the run that starts in [m0]. *)
Definition cursor_monotone (schedule : list Action → nat → list nat)
    (rm : ReplicationManager) (m0 : Machine) : Prop :=
  ∀ i j, i ≤ j →
    (resourceVersion (steps schedule rm i m0) ≤ resourceVersion (steps schedule rm j m0))%Z.

Definition mkEvent (kind : EventType) (rc : ReplicationController) : Event :=
  {| Ev_Type := kind; Ev_Object := ObjReplicationController rc |}.

(** The machine at the [select], with [deliveries] to come. *)
Definition selecting (cursor : Z) (w : World) (deliveries : list Select) : Machine :=
  {| pc := Selecting; resourceVersion := cursor; world := w; input := deliveries |}.

(** Clusters, managers and machines of the examples. *)
Definition one_pod : list Pod := [mkPod "a" PodRunning].
Definition rm_one : ReplicationManager :=
  NewReplicationManager in_order never (cluster one_pod None).
Definition rm_five : ReplicationManager :=
  NewReplicationManager last_first never (cluster five_pods None).
Definition rm_empty : ReplicationManager :=
  NewReplicationManager in_order never (cluster [] None).

(** No race: one goroutine at most, no label map to write, or a runtime
    that catches nothing. *)
Definition raceFree (racy : list Action → bool) (goroutines : nat)
    (spec : ReplicationController) : Prop :=
  goroutines ≤ 1 ∨ Tpl_Labels (Template (RC_Spec spec)) = None ∨ ∀ h, racy h = false.

(** A stream whose second controller is older than the first. *)
Definition stream_5_then_3 : list Select :=
  [SelRecv (mkEvent Modified (web 3 5)); SelRecv (mkEvent Modified (web 3 3)); SelClosed].

(** A stream in version order, with a pod in the middle. *)
Definition stream_5_pod_9 : list Select :=
  [SelRecv (mkEvent Added (web 3 5));
   SelRecv {| Ev_Type := Added; Ev_Object := ObjPod (mkPod "x" PodRunning) |};
   SelRecv (mkEvent Deleted (web 3 9)); SelClosed].

(** ** The periodic sweep, spec by spec *)

(** What one goroutine of [synchronize] does with its specification. *)
Definition sweepSpec (rm : ReplicationManager) (spec : ReplicationController) : M unit :=
  err <~ syncHandler rm spec ;;
  match err with
  | Some e => glog_Errorf "Error synchronizing: %#v" e
  | None => ret tt
  end.

(** Computations run one after the other; a panic ends the run. *)
Fixpoint run_all (tasks : list (M unit)) : M unit :=
  match tasks with
  | [] => ret tt
  | task :: rest => task ;;; run_all rest
  end.

Definition is_ReqWatch (a : Action) : bool :=
  match a with ReqWatchReplicationControllers _ _ _ _ => true | _ => false end.

(** A cluster on which no watch can be opened. *)
Definition watchless (pods : list Pod) : Interface := cluster pods (Some "watch refused").

(** A specification whose template has no label map. *)
Definition bare (replicas : Z) : ReplicationController :=
  {| RC_ID := "bare"; RC_Namespace := "default"; RC_ResourceVersion := 1;
     RC_Spec := {| Replicas := replicas;
                   Selector := {["app" := "bare"]};
                   Template := {| Tpl_Labels := None; Tpl_Spec := "busybox" |} |} |}.

(** A cluster that lists two specifications for the sweep. *)
Definition cluster_two_specs : Interface :=
  {| ListPods := λ _ _ _, inr "pods unavailable";
     CreatePod := λ _ _ _ _, None;
     DeletePod := λ _ _ _, None;
     WatchReplicationControllers := λ _ _ _ _ _, None;
     ListReplicationControllers := λ _ _ _, inl {| RC_Items := [web 3 7; bare 1] |} |}.

(** A computation leaves every label map but the template's as it was. *)
Definition preserves_other_maps (spec : ReplicationController) {A} (m : M A) : Prop :=
  ∀ w l', Tpl_Labels (Template (RC_Spec spec)) ≠ Some l' →
    heap (snd (m w)) !! l' = heap w !! l'.

(** The specifications the goroutines of a sweep pick, in the order they run. *)
Definition pickedSpecs (controllerSpecs : list ReplicationController) (order : list nat)
    : list ReplicationController :=
  omap (λ ix, controllerSpecs !! ix) order.

(** * Package [pod]: status decoration, matching and location
    ([src/pkg/registry/pod/rest.go], first part)

    The pod of this package is the one the REST storage serves: it has a
    name and a namespace, labels by value, containers with ports, and a
    status with phase, host and IP. *)
Module pod.

(** The separator of name and port. *)
Definition colon : Ascii.ascii := Ascii.Ascii false true false true true true false false.

Definition PodPhase := string.
Definition PodUnknown : PodPhase := "Unknown".

Record Port := { ContainerPort : Z }.                    (* Go int *)
Record Container := { Ports : list Port }.
Record PodSpec := { Containers : list Container }.

Record PodStatus := {
  Phase : PodPhase;
  Host : string;
  PodIP : string;
  Info : string;                    (* the rest of the status, never read here *)
}.

Record Pod := {
  Namespace : string;
  Name : string;
  Labels : gmap string string;
  Spec : PodSpec;
  Status : PodStatus;
}.

(** A [runtime.Object]: a [*api.Pod], which may be nil, or a value of
    another type. *)
Inductive Object :=
  | PodPtr (pod : option Pod)
  | OtherObject (kind : string).

Inductive error :=
  | NewBadRequest (format : string) (arg : string)   (* errors.NewBadRequest(Sprintf(..)) *)
  | Errorf (message : string)                         (* fmt.Errorf *)
  | StorageError (message : string).                  (* whatever a collaborator returns *)

(** [PodStatusGetter], over the state [C] of the cache behind it. *)
Record PodStatusGetter (C : Type) := {
  GetPodStatus : C → string → string → PodStatus + error;
  ClearPodStatus : C → string → string → C;
}.
Arguments GetPodStatus {C} _ _ _ _.
Arguments ClearPodStatus {C} _ _ _ _.

Definition withStatus (pod : Pod) (status : PodStatus) : Pod :=
  {| Namespace := Namespace pod; Name := Name pod; Labels := Labels pod;
     Spec := Spec pod; Status := status |}.

Definition withHost (status : PodStatus) (host : string) : PodStatus :=
  {| Phase := Phase status; Host := host; PodIP := PodIP status; Info := Info status |}.

(** [PodStatusDecorator(cache)(obj)]: the object as it is afterwards and
    the error returned.  The type assertion panics on another type, the
    first field access on a nil pod. *)
Definition PodStatusDecorator {C} (cache : PodStatusGetter C) (c : C) (obj : Object)
    : Res (Object * option error) :=
  match obj with
  | PodPtr (Some pod) =>
      let host := Host (Status pod) in
      let status :=
        match GetPodStatus cache c (Namespace pod) (Name pod) with
        | inr err => {| Phase := PodUnknown; Host := ""; PodIP := ""; Info := "" |}
        | inl status => status
        end in
      Ret (PodPtr (Some (withStatus pod (withHost status host))), None)
  | _ => Panic
  end.

(** [PodStatusReset(cache)(obj)]: the cache as it is afterwards. *)
Definition PodStatusReset {C} (cache : PodStatusGetter C) (c : C) (obj : Object)
    : Res (C * option error) :=
  match obj with
  | PodPtr (Some pod) => Ret (ClearPodStatus cache c (Namespace pod) (Name pod), None)
  | _ => Panic
  end.

(** [labels.Selector], as far as it is used: [Matches]. *)
Record Selector := { Matches : gmap string string → bool }.

Section fields.
(** [api.Scheme.Convert] from the phase to the older status string; its
    error is dropped by the caller. *)
Variable convertPhase : PodPhase → string.

Definition PodToSelectableFields (pod : Pod) : gmap string string :=
  let olderPodStatus := convertPhase (Phase (Status pod)) in
  <["name" := Name pod]>
  (<["Status.Phase" := Phase (Status pod)]>
  (<["Status.Host" := Host (Status pod)]>
  (<["DesiredState.Status" := olderPodStatus]>
  (<["DesiredState.Host" := Host (Status pod)]> ∅)))).

Definition MatchPod (label field : Selector) (obj : Object) : Res (bool * option error) :=
  match obj with
  | OtherObject _ => Ret (false, Some (Errorf "not a pod"))
  | PodPtr None => Panic
  | PodPtr (Some podObj) =>
      let fields := PodToSelectableFields podObj in
      Ret (Matches label (Labels podObj) && Matches field fields, None)
  end.
End fields.

(** [strings.Split] for a separator of one character. *)
Fixpoint Split (s : string) (sep : Ascii.ascii) : list string :=
  match s with
  | EmptyString => [EmptyString]
  | String c rest =>
      if Ascii.eqb c sep then EmptyString :: Split rest sep
      else match Split rest sep with
           | part :: parts => String c part :: parts
           | [] => [String c EmptyString]
           end
  end.

(** The number of occurrences of a character. *)
Fixpoint count_char (c : Ascii.ascii) (s : string) : nat :=
  match s with
  | EmptyString => 0
  | String c' rest => (if Ascii.eqb c' c then 1 else 0) + count_char c rest
  end.

(** [ResourceGetter] *)
Record ResourceGetter := { Get : Context → string → Object + error }.

(** The loop over the containers: the first port of the first container
    that has one, printed with [%d]; the empty string when there is none. *)
Fixpoint firstContainerPort (containers : list Container) : string :=
  match containers with
  | [] => ""
  | container :: rest =>
      match Ports container with
      | p :: _ => pretty (ContainerPort p)
      | [] => firstContainerPort rest
      end
  end.

Definition ResourceLocation (getter : ResourceGetter) (ctx : Context) (id : string)
    : Res (string * option error) :=
  let parts := Split id colon in
  if 2 <? length parts then Ret ("", Some (NewBadRequest "invalid pod request %q" id))
  else
    match parts with
    | [] => Panic                       (* parts[0] out of range *)
    | name :: _ =>
        let port := if length parts =? 2 then default "" (parts !! 1) else "" in
        match Get getter ctx name with
        | inr err => Ret ("", Some err)
        | inl (OtherObject _) => Panic
        | inl (PodPtr None) => Ret ("", None)
        | inl (PodPtr (Some pod)) =>
            let port :=
              if decide (port = "") then firstContainerPort (Containers (Spec pod))
              else port in
            let loc := PodIP (Status pod) in
            let loc := if decide (port = "") then loc else loc +:+ ":" +:+ port in
            Ret (loc, None)
        end
    end.

(** ** Fixtures *)

(** A cache that is a map from namespace and name to a status. *)
Definition mapCache : PodStatusGetter (gmap (string * string) PodStatus) :=
  {| GetPodStatus := λ c namespace name,
       match c !! (namespace, name) with
       | Some status => inl status
       | None => inr (StorageError "Pod not in cache")
       end;
     ClearPodStatus := λ c namespace name, delete (namespace, name) c |}.

Definition running_elsewhere : PodStatus :=
  {| Phase := "Running"; Host := "machine-9"; PodIP := "10.0.0.5"; Info := "ready" |}.

Definition nginx : Pod :=
  {| Namespace := "default"; Name := "nginx"; Labels := {["app" := "web"]};
     Spec := {| Containers := [ {| Ports := [] |};
                                {| Ports := [ {| ContainerPort := 8080 |};
                                              {| ContainerPort := 9090 |} ] |} ] |};
     Status := {| Phase := "Pending"; Host := "machine-1"; PodIP := "10.0.0.5"; Info := "" |} |}.

Definition cache_with_nginx : gmap (string * string) PodStatus :=
  {[ ("default", "nginx") := running_elsewhere ]}.

(** A getter that knows "nginx" only. *)
Definition nginx_getter : ResourceGetter :=
  {| Get := λ _ name, if decide (name = "nginx") then inl (PodPtr (Some nginx))
                      else inr (StorageError "not found") |}.

Definition older (phase : PodPhase) : string := "old-" +:+ phase.

End pod.

(** * Package [runtime]: the client negotiator
    ([src/staging/src/k8s.io/apimachinery/pkg/runtime/negotiate.go])

    [Serializer], [Encoder] and [Decoder] are interfaces; a value of one of
    them is a [Codec] here, whatever it does.  The lookup of a media type
    ([SerializerInfoForMediaType]) and the name of the internal version
    ([APIVersionInternal]) are declared elsewhere in the package and are
    taken as given. *)
Module runtime.

Record GroupVersion := { Group : string; Version : string }.

(** [GroupVersioner]: a [schema.GroupVersion] or a [schema.GroupVersions]. *)
Inductive GroupVersioner :=
  | OneVersion (gv : GroupVersion)
  | Versions (gvs : list GroupVersion).

Section negotiate.
Variable Codec : Type.
Variable Framer : Type.

Record StreamSerializerInfo := {
  Stream_Serializer : Codec;
  Stream_Framer : Framer;
}.

Record SerializerInfo := {
  MediaType : string;
  Serializer : Codec;
  StreamSerializer : option StreamSerializerInfo;   (* a pointer, nil when absent *)
}.

Record NegotiatedSerializer := {
  SupportedMediaTypes : list SerializerInfo;
  EncoderForVersion : Codec → option GroupVersioner → Codec;
  DecoderToVersion : Codec → option GroupVersioner → Codec;
}.

Record clientNegotiator := {
  serializer : NegotiatedSerializer;
  encode : option GroupVersioner;       (* nil when unset *)
  decode : option GroupVersioner;
}.

Variable SerializerInfoForMediaType : list SerializerInfo → string → option SerializerInfo.
Variable APIVersionInternal : string.

(** [len(contentType) != 0 || len(mediaTypes) == 0] *)
Definition noDefault (contentType : string) (mediaTypes : list SerializerInfo) : bool :=
  negb (String.length contentType =? 0) || (length mediaTypes =? 0).

Definition Encoder (n : clientNegotiator) (contentType : string) : Res (Codec + string) :=
  let mediaTypes := SupportedMediaTypes (serializer n) in
  match SerializerInfoForMediaType mediaTypes contentType with
  | Some info => Ret (inl (EncoderForVersion (serializer n) (Serializer info) (encode n)))
  | None =>
      if noDefault contentType mediaTypes
      then Ret (inr ("no serializers registered for " +:+ contentType))
      else match mediaTypes with
           | info :: _ =>
               Ret (inl (EncoderForVersion (serializer n) (Serializer info) (encode n)))
           | [] => Panic                (* mediaTypes[0] out of range *)
           end
  end.

Definition Decoder (n : clientNegotiator) (contentType : string) : Res (Codec + string) :=
  let mediaTypes := SupportedMediaTypes (serializer n) in
  match SerializerInfoForMediaType mediaTypes contentType with
  | Some info => Ret (inl (DecoderToVersion (serializer n) (Serializer info) (decode n)))
  | None =>
      if noDefault contentType mediaTypes
      then Ret (inr ("no serializers registered for " +:+ contentType))
      else match mediaTypes with
           | info :: _ =>
               Ret (inl (DecoderToVersion (serializer n) (Serializer info) (decode n)))
           | [] => Panic
           end
  end.

(** The second half of [StreamDecoder], once the media type is chosen. *)
Definition streamOf (n : clientNegotiator) (info : SerializerInfo)
    : Res (Codec * Codec * Framer + string) :=
  match StreamSerializer info with
  | None => Ret (inr ("no stream serializers registered for " +:+ MediaType info))
  | Some stream =>
      Ret (inl (DecoderToVersion (serializer n) (Serializer info) (decode n),
                Stream_Serializer stream, Stream_Framer stream))
  end.

Definition StreamDecoder (n : clientNegotiator) (contentType : string)
    : Res (Codec * Codec * Framer + string) :=
  let mediaTypes := SupportedMediaTypes (serializer n) in
  match SerializerInfoForMediaType mediaTypes contentType with
  | Some info => streamOf n info
  | None =>
      if noDefault contentType mediaTypes
      then Ret (inr ("no stream serializers registered for " +:+ contentType))
      else match mediaTypes with
           | info :: _ => streamOf n info
           | [] => Panic
           end
  end.

Definition NewClientNegotiator (serializer : NegotiatedSerializer) (gv : GroupVersion)
    : clientNegotiator :=
  {| serializer := serializer; encode := Some (OneVersion gv); decode := None |}.

Definition NewInternalClientNegotiator (serializer : NegotiatedSerializer) (gv : GroupVersion)
    : clientNegotiator :=
  let decode := Versions [ {| Group := Group gv; Version := APIVersionInternal |};
                           {| Group := ""; Version := APIVersionInternal |} ] in
  {| serializer := serializer; encode := Some (OneVersion gv); decode := Some decode |}.

(** [simpleNegotiatedSerializer] and its three methods. *)
Definition NewSimpleNegotiatedSerializer (info : SerializerInfo) : NegotiatedSerializer :=
  {| SupportedMediaTypes := [info];
     EncoderForVersion := λ e _, e;
     DecoderToVersion := λ d _, d |}.

Definition NewSimpleClientNegotiator (info : SerializerInfo) (gv : GroupVersion)
    : clientNegotiator :=
  {| serializer := NewSimpleNegotiatedSerializer info;
     encode := Some (OneVersion gv); decode := None |}.

End negotiate.

Arguments MediaType {Codec Framer} _.
Arguments Serializer {Codec Framer} _.
Arguments StreamSerializer {Codec Framer} _.
Arguments Stream_Serializer {Codec Framer} _.
Arguments Stream_Framer {Codec Framer} _.
Arguments SupportedMediaTypes {Codec Framer} _.
Arguments EncoderForVersion {Codec Framer} _ _ _.
Arguments DecoderToVersion {Codec Framer} _ _ _.
Arguments serializer {Codec Framer} _.
Arguments encode {Codec Framer} _.
Arguments decode {Codec Framer} _.
Arguments Encoder {Codec Framer} _ _ _.
Arguments Decoder {Codec Framer} _ _ _.
Arguments StreamDecoder {Codec Framer} _ _ _.
Arguments NewClientNegotiator {Codec Framer} _ _.
Arguments NewInternalClientNegotiator {Codec Framer} _ _ _.
Arguments NewSimpleNegotiatedSerializer {Codec Framer} _.
Arguments NewSimpleClientNegotiator {Codec Framer} _ _.

(** ** Fixtures: codecs by name, and a lookup by exact media type *)

Definition byExactType (types : list (SerializerInfo string string)) (mediaType : string)
    : option (SerializerInfo string string) :=
  List.find (λ info, bool_decide (MediaType info = mediaType)) types.

Definition json : SerializerInfo string string :=
  {| MediaType := "application/json"; Serializer := "json";
     StreamSerializer := Some {| Stream_Serializer := "json-stream";
                                 Stream_Framer := "newline" |} |}.

Definition yaml : SerializerInfo string string :=
  {| MediaType := "application/yaml"; Serializer := "yaml"; StreamSerializer := None |}.

Definition codecs : NegotiatedSerializer string string :=
  {| SupportedMediaTypes := [yaml; json];
     EncoderForVersion := λ e gv, "versioning(" +:+ e +:+ ")";
     DecoderToVersion := λ d gv, "converting(" +:+ d +:+ ")" |}.

Definition apps_v1 : GroupVersion := {| Group := "apps"; Version := "v1" |}.
Definition apps_v1beta1 : GroupVersion := {| Group := "apps"; Version := "v1beta1" |}.

End runtime.

Definition is_ReqListPods (a : Action) : bool :=
  match a with ReqListPods _ _ => true | _ => false end.

(** A computation only appends to the trace, and none of what it appends
    is selected by [f]. *)
Definition quiet (f : Action → bool) {A} (m : M A) : Prop :=
  ∀ w, ∃ d, trace (snd (m w)) = trace w ++ d ∧ List.filter f d = [].

(** The listing request of the reconciliation of a specification. *)
Definition listingOf (spec : ReplicationController) : Action :=
  ReqListPods (specContext spec) (specSelector spec).

(** * Properties *)

(** ** Integers *)

Lemma wrap_int_id (z : Z) : is_int z → wrap_int z = z.
Proof.
  unfold is_int, wrap_int, int_min, int_max, two63, two64. intros Hz.
  rewrite Z.mod_small; lia.
Qed.

Lemma uint64_add_1 (v : Z) : (0 ≤ v < uint64_max)%Z → uint64_add v 1 = (v + 1)%Z.
Proof.
  unfold uint64_add, uint64_max, two64. intros Hv.
  rewrite Z.mod_small; lia.
Qed.

Lemma uint64_add_max : uint64_add uint64_max 1 = 0%Z.
Proof. reflexivity. Qed.

Lemma len_nonneg {A} (l : list A) : (0 ≤ len l)%Z.
Proof. unfold len. lia. Qed.

(** ** Traces *)

Lemma issued_app (w w' : World) (d : list Action) :
  trace w' = trace w ++ d → issued w w' = d.
Proof. intros E. unfold issued. rewrite E. apply drop_app_length. Qed.

Lemma issued_emit (a : Action) (w : World) : issued w (emit a w) = [a].
Proof. by apply issued_app. Qed.

(** ** [createReplica] *)

Lemma stamped_idemp (spec : ReplicationController) (h : gmap loc (gmap string string)) :
  stamped spec (stamped spec h) = stamped spec h.
Proof.
  unfold stamped. destruct (Tpl_Labels _) as [l|]; [|done].
  apply map_eq. intros i. destruct (decide (l = i)) as [<-|Hne].
  - rewrite !lookup_alter_eq. destruct (h !! l) as [m|]; simpl; [|done].
    by rewrite insert_insert_eq.
  - by rewrite !lookup_alter_ne.
Qed.

Lemma createReplica_run (c : Interface) (ctx : Context)
    (spec : ReplicationController) (w : World) :
  let sent := read_labels (stamped spec (heap w)) (Tpl_Labels (Template (RC_Spec spec))) in
  RealPodControl_createReplica c ctx spec w =
    (Ret tt,
     {| heap := stamped spec (heap w);
        trace := trace w ++ ReqCreatePod ctx (replicaPod spec) sent
                   :: createLog (CreatePod c (trace w) ctx (replicaPod spec) sent) |}).
Proof.
  unfold RealPodControl_createReplica, stamped, bind, call_CreatePod, map_store,
    glog_Errorf, tell, emit, ret, createLog.
  destruct (Tpl_Labels (Template (RC_Spec spec))) as [l|] eqn:El; simpl; rewrite ?El;
    simpl; destruct (CreatePod c _ _ _ _); simpl;
    rewrite <- ?app_assoc; reflexivity.
Qed.

Lemma invoke_createReplica_run (c : Interface) (ctx : Context)
    (spec : ReplicationController) (w : World) :
  let sent := read_labels (stamped spec (heap w)) (Tpl_Labels (Template (RC_Spec spec))) in
  invoke_createReplica (RealPodControl c) ctx spec w =
    (Ret tt,
     {| heap := stamped spec (heap w);
        trace := trace w ++ CallCreateReplica ctx spec
                   :: ReqCreatePod ctx (replicaPod spec) sent
                   :: createLog (CreatePod c (trace w ++ [CallCreateReplica ctx spec])
                                   ctx (replicaPod spec) sent) |}).
Proof.
  unfold invoke_createReplica, bind, tell. simpl.
  rewrite createReplica_run. simpl. by rewrite <- app_assoc.
Qed.

Lemma listing_no_calls (ctx : Context) (s : LabelSelector) (d : list Action) :
  podControlCalls (ReqListPods ctx s :: d) = podControlCalls d
  ∧ createRequests (ReqListPods ctx s :: d) = createRequests d
  ∧ deleteRequests (ReqListPods ctx s :: d) = deleteRequests d.
Proof. done. Qed.

Lemma createLog_no_calls (answer : option error) :
  podControlCalls (createLog answer) = [] ∧
  createRequests (createLog answer) = [] ∧
  deleteRequests (createLog answer) = [].
Proof. by destruct answer. Qed.

(** ** The wait group and the label-map race *)

Lemma wrap_int32_id (z : Z) : (- two31 ≤ z < two31)%Z → wrap_int32 z = z.
Proof.
  unfold wrap_int32, two31, two32. intros Hz. rewrite Z.mod_small; lia.
Qed.

Lemma WaitGroup_Add_fits (delta : Z) (w : World) :
  (0 ≤ delta < two31)%Z → WaitGroup_Add delta w = (Ret delta, w).
Proof.
  intros Hd. unfold WaitGroup_Add. rewrite wrap_int32_id by lia.
  by destruct (Z.ltb_spec delta 0); [lia|].
Qed.

Lemma WaitGroup_Add_negative (delta : Z) (w : World) :
  (wrap_int32 delta < 0)%Z → WaitGroup_Add delta w = (Panic, w).
Proof.
  intros Hd. unfold WaitGroup_Add.
  by destruct (Z.ltb_spec (wrap_int32 delta) 0); [|lia].
Qed.

(** A count that fits the counter: the goroutines run, and the wait returns
    after the last. *)
Lemma fan_out_wait_fits (schedule : list Action → nat → list nat) (delta : Z)
    (body : nat → M unit) (w : World) :
  (0 ≤ delta < two31)%Z →
  fan_out_wait schedule delta body w = fan_out schedule (Z.to_nat delta) body w.
Proof.
  intros Hd. unfold fan_out_wait, bind. rewrite WaitGroup_Add_fits by done.
  rewrite Z2Nat.id by lia. by rewrite Z.eqb_refl.
Qed.

(** A count whose 32-bit truncation is negative: [wait.Add] panics before
    any goroutine is started. *)
Lemma fan_out_wait_negative (schedule : list Action → nat → list nat) (delta : Z)
    (body : nat → M unit) (w : World) :
  (wrap_int32 delta < 0)%Z → fan_out_wait schedule delta body w = (Panic, w).
Proof.
  intros Hd. unfold fan_out_wait, bind. by rewrite WaitGroup_Add_negative.
Qed.

(** Whatever the count, the world after the batch is the world after some
    of the goroutines have run, one after the other. *)
Lemma fan_out_wait_runs (schedule : list Action → nat → list nat) (delta : Z)
    (body : nat → M unit) (w : World) :
  ∃ order, snd (fan_out_wait schedule delta body w) = snd (run_goroutines body order w).
Proof.
  unfold fan_out_wait, bind, WaitGroup_Add.
  destruct (wrap_int32 delta <? 0)%Z; [by exists []|].
  unfold ret. repeat case_match; eexists; unfold fan_out; reflexivity.
Qed.

(** A batch returns only when its count fits the counter. *)
Lemma fan_out_wait_returns (schedule : list Action → nat → list nat) (delta : Z)
    (body : nat → M unit) (w : World) :
  (0 ≤ delta)%Z →
  fst (fan_out_wait schedule delta body w) = Ret tt → (delta < two31)%Z.
Proof.
  intros Hpos. unfold fan_out_wait, bind, WaitGroup_Add.
  destruct (wrap_int32 delta <? 0)%Z; [done|]. unfold ret.
  destruct (Z.eqb_spec (wrap_int32 delta) (Z.of_nat (Z.to_nat delta))) as [Heq|_];
    [|by case_match].
  intros _. rewrite Z2Nat.id in Heq by done.
  unfold wrap_int32, two31, two32 in *.
  pose proof (Z.mod_pos_bound (delta + 2147483648) 4294967296). lia.
Qed.

Lemma labelMapRace_free (racy : list Action → bool) (goroutines : nat)
    (spec : ReplicationController) (w : World) :
  raceFree racy goroutines spec → labelMapRace racy goroutines spec w = (Ret tt, w).
Proof.
  unfold labelMapRace. intros [Hone|[Hnil|Hnever]].
  - by destruct (Nat.ltb_spec 1 goroutines); [lia|].
  - rewrite bool_decide_eq_false_2 by (by rewrite Hnil; intros []).
    by rewrite andb_false_r.
  - by rewrite Hnever, andb_false_r.
Qed.



(** A batch of creating goroutines without a race: every one runs to its
    end, whatever the cluster answers, and each issues one call and one
    request. *)
Lemma create_batch (racy : list Action → bool) (c : Interface) (ctx : Context)
    (spec : ReplicationController) (goroutines : nat) (order : list nat) (w : World) :
  raceFree racy goroutines spec →
  ∃ w' d,
    run_goroutines (createGoroutine racy (RealPodControl c) ctx spec goroutines) order w
      = (Ret tt, w')
    ∧ trace w' = trace w ++ d
    ∧ heap w' = match order with [] => heap w | _ => stamped spec (heap w) end
    ∧ podControlCalls d = replicate (length order) (CallCreateReplica ctx spec)
    ∧ createRequests d =
        replicate (length order)
          (ReqCreatePod ctx (replicaPod spec)
             (read_labels (stamped spec (heap w)) (Tpl_Labels (Template (RC_Spec spec)))))
    ∧ deleteRequests d = [].
Proof.
  intros Hfree. revert w. induction order as [|i order IH]; intros w.
  - exists w, []. simpl. rewrite app_nil_r. done.
  - simpl. unfold bind at 1, createGoroutine at 1, bind at 1.
    rewrite labelMapRace_free by done. rewrite invoke_createReplica_run.
    set (w1 := Build_World _ _).
    destruct (IH w1) as (w' & d & Hrun & Htr & Hheap & Hcalls & Hcre & Hdel).
    set (answer := CreatePod c _ _ _ _) in w1. set (lg := createLog answer) in w1.
    destruct (createLog_no_calls answer) as (L1 & L2 & L3). fold lg in L1, L2, L3.
    exists w', (CallCreateReplica ctx spec
                  :: ReqCreatePod ctx (replicaPod spec)
                       (read_labels (stamped spec (heap w))
                          (Tpl_Labels (Template (RC_Spec spec))))
                  :: lg ++ d).
    split; [exact Hrun|]. split.
    { rewrite Htr. subst w1. simpl. rewrite <- app_assoc. done. }
    split.
    { rewrite Hheap. subst w1. simpl. rewrite stamped_idemp. by destruct order. }
    subst w1. simpl in Hcre. rewrite stamped_idemp in Hcre.
    unfold podControlCalls, createRequests, deleteRequests in *. simpl.
    rewrite !List.filter_app, L1, L2, L3, Hcalls, Hcre, Hdel. done.
Qed.

(** ** Deleting goroutines *)

Lemma picked_shift (p : Pod) (filteredList : list Pod) (order : list nat) :
  picked (p :: filteredList) (S <$> order) = picked filteredList order.
Proof.
  unfold picked. induction order as [|i order IH]; [done|].
  csimpl. by rewrite IH.
Qed.

Lemma picked_seq (filteredList : list Pod) (n : nat) :
  picked filteredList (seq 0 n) = take n filteredList.
Proof.
  revert n. induction filteredList as [|p l IH]; intros n.
  - rewrite take_nil. unfold picked. induction (seq 0 n) as [|i s IHs]; [done|]. by csimpl.
  - destruct n as [|n]; [done|].
    change (seq 0 (S n)) with (0 :: seq 1 n).
    rewrite <- fmap_S_seq. unfold picked at 1. csimpl. f_equal.
    fold (picked (p :: l) (S <$> seq 0 n)). rewrite picked_shift. apply IH.
Qed.

Lemma picked_schedule (filteredList : list Pod) (order : list nat) (n : nat) :
  order ≡ₚ seq 0 n → picked filteredList order ≡ₚ take n filteredList.
Proof.
  intros Hperm. rewrite <- picked_seq. unfold picked. by apply omap_Permutation.
Qed.

Lemma picked_all (filteredList : list Pod) (order : list nat) :
  Forall (λ ix, ix < length filteredList) order →
  length (picked filteredList order) = length order.
Proof.
  unfold picked. induction 1 as [|i order Hi _ IH]; [done|]. csimpl.
  destruct (lookup_lt_is_Some_2 filteredList i Hi) as [p ->]. simpl. by rewrite IH.
Qed.

Lemma deleteActions_calls (ctx : Context) (pods : list Pod) :
  podControlCalls (pods ≫= deleteActions ctx) = (λ p, CallDeletePod ctx (Pod_ID p)) <$> pods
  ∧ deleteRequests (pods ≫= deleteActions ctx) = (λ p, ReqDeletePod ctx (Pod_ID p)) <$> pods
  ∧ createRequests (pods ≫= deleteActions ctx) = [].
Proof.
  induction pods as [|p pods (IH1 & IH2 & IH3)]; [done|].
  unfold podControlCalls, deleteRequests, createRequests in *.
  csimpl. rewrite IH1, IH2, IH3. done.
Qed.

Lemma run_goroutines_cons (body : nat → M unit) (i : nat) (order : list nat) (w : World) :
  run_goroutines body (i :: order) w =
    match body i w with
    | (Ret _, w') => run_goroutines body order w'
    | (Panic, w') => (Panic, w')
    end.
Proof. reflexivity. Qed.

(** A batch of deleting goroutines whose indices are in range: every one
    runs to its end, whatever the cluster answers, and the answer is dropped. *)
Lemma delete_batch (c : Interface) (ctx : Context) (filteredList : list Pod)
    (order : list nat) (w : World) :
  Forall (λ ix, ix < length filteredList) order →
  run_goroutines (deleteGoroutine (RealPodControl c) ctx filteredList) order w =
    (Ret tt, {| heap := heap w;
                trace := trace w ++ (picked filteredList order ≫= deleteActions ctx) |}).
Proof.
  intros Hin. revert w. induction Hin as [|i order Hi _ IH]; intros w.
  - simpl. unfold ret. rewrite app_nil_r. by destruct w.
  - destruct (lookup_lt_is_Some_2 filteredList i Hi) as [p Hp].
    rewrite run_goroutines_cons. unfold deleteGoroutine at 1. rewrite Hp.
    unfold invoke_deletePod, bind, tell, ret. simpl. rewrite IH. simpl.
    unfold picked. csimpl. rewrite Hp. simpl. rewrite <- !app_assoc. done.
Qed.

(** An index out of range stops the process before any later goroutine runs. *)
Lemma delete_out_of_range (p : PodControlInterface) (ctx : Context)
    (filteredList : list Pod) (ix : nat) (rest : list nat) (w : World) :
  length filteredList ≤ ix →
  run_goroutines (deleteGoroutine p ctx filteredList) (ix :: rest) w = (Panic, w).
Proof.
  intros Hge. rewrite run_goroutines_cons. unfold deleteGoroutine.
  by rewrite (lookup_ge_None_2 filteredList ix Hge).
Qed.

(** ** [syncReplicationController] *)

Lemma replicaDiff_exact (filteredList : list Pod) (spec : ReplicationController) :
  is_int (len filteredList - Replicas (RC_Spec spec)) →
  replicaDiff filteredList spec = (len filteredList - Replicas (RC_Spec spec))%Z.
Proof. apply wrap_int_id. Qed.

Section reconcile.
Variable schedule : list Action → nat → list nat.
(** Every goroutine that was started runs, once. *)
Hypothesis schedule_fair : ∀ h n, schedule h n ≡ₚ seq 0 n.
Variable racy : list Action → bool.

Lemma schedule_length (h : list Action) (n : nat) : length (schedule h n) = n.
Proof. by rewrite schedule_fair, length_seq. Qed.

Lemma schedule_in_range (h : list Action) (n bound : nat) :
  n ≤ bound → Forall (λ ix, ix < bound) (schedule h n).
Proof.
  intros Hn. rewrite schedule_fair. apply Forall_forall. intros ix Hix.
  apply elem_of_seq in Hix. lia.
Qed.

Lemma sync_list_fails (rm : ReplicationManager) (spec : ReplicationController)
    (w : World) (err : error) :
  ListPods (kubeClient rm) (trace w) (specContext spec) (specSelector spec) = inr err →
  syncReplicationController schedule racy rm spec w =
    (Ret (Some err), emit (ReqListPods (specContext spec) (specSelector spec)) w).
Proof.
  intros Hlist. unfold syncReplicationController, bind, call_ListPods.
  fold (specContext spec) (specSelector spec). by rewrite Hlist.
Qed.

Lemma sync_balanced (rm : ReplicationManager) (spec : ReplicationController)
    (w : World) (podList : PodList) :
  ListPods (kubeClient rm) (trace w) (specContext spec) (specSelector spec) = inl podList →
  Replicas (RC_Spec spec) = len (filterActivePods (Pod_Items podList)) →
  is_int (Replicas (RC_Spec spec)) →
  syncReplicationController schedule racy rm spec w =
    (Ret None, emit (ReqListPods (specContext spec) (specSelector spec)) w).
Proof.
  intros Hlist Heq Hint. unfold syncReplicationController, bind, call_ListPods.
  fold (specContext spec) (specSelector spec). rewrite Hlist.
  rewrite replicaDiff_exact; rewrite <- Heq, Z.sub_diag; [done|].
  unfold is_int, int_min, int_max, two63. lia.
Qed.


(** The deletion branch, up to the wait group. *)
Lemma sync_deletion_branch (rm : ReplicationManager) (spec : ReplicationController)
    (w : World) (podList : PodList) :
  let ctx := specContext spec in
  let active := filterActivePods (Pod_Items podList) in
  let excess := (len active - Replicas (RC_Spec spec))%Z in
  ListPods (kubeClient rm) (trace w) ctx (specSelector spec) = inl podList →
  (0 ≤ Replicas (RC_Spec spec))%Z →
  is_int (len active) →
  (Replicas (RC_Spec spec) < len active)%Z →
  syncReplicationController schedule racy rm spec w =
    (fan_out_wait schedule excess (deleteGoroutine (podControl rm) ctx active) ;;;
     ret None) (emit (ReqListPods ctx (specSelector spec)) w).
Proof.
  intros ctx active excess Hlist Hpos Hint Hlt.
  assert (Hd : replicaDiff active spec = excess).
  { apply replicaDiff_exact. unfold is_int, int_min, int_max, two63 in *. lia. }
  unfold syncReplicationController. unfold bind at 1. unfold call_ListPods.
  fold (specContext spec) (specSelector spec) ctx. rewrite Hlist.
  fold active. rewrite Hd. unfold excess.
  destruct (Z.ltb_spec (len active - Replicas (RC_Spec spec)) 0) as [?|_]; [lia|].
  by destruct (Z.ltb_spec 0 (len active - Replicas (RC_Spec spec))) as [_|?]; [|lia].
Qed.


Lemma sync_too_many (c : Interface) (spec : ReplicationController)
    (w : World) (podList : PodList) :
  let ctx := specContext spec in
  let active := filterActivePods (Pod_Items podList) in
  let n := Z.to_nat (len active - Replicas (RC_Spec spec)) in
  let listing := ReqListPods ctx (specSelector spec) in
  ListPods c (trace w) ctx (specSelector spec) = inl podList →
  (0 ≤ Replicas (RC_Spec spec))%Z →
  is_int (len active) →
  (Replicas (RC_Spec spec) < len active)%Z →
  (len active - Replicas (RC_Spec spec) < two31)%Z →
  syncReplicationController schedule racy (NewReplicationManager schedule racy c) spec w =
    (Ret None,
     {| heap := heap w;
        trace := trace w ++ listing
                   :: (picked active (schedule (trace w ++ [listing]) n)
                         ≫= deleteActions ctx) |}).
Proof.
  intros ctx active n listing Hlist Hpos Hint Hlt Hfits.
  rewrite (sync_deletion_branch (NewReplicationManager schedule racy c) spec w podList)
    by done.
  fold ctx active n. unfold NewReplicationManager. cbn [kubeClient podControl].
  unfold bind. rewrite fan_out_wait_fits by (fold active; lia).
  fold n. unfold fan_out.
  rewrite delete_batch.
  - unfold ret, emit. simpl. fold listing. by rewrite <- app_assoc.
  - apply schedule_in_range. subst n. unfold len in *. lia.
Qed.


(** The same for an excess of 2^31 pods or more, up to 2^32 - 1. *)
Lemma sync_wait_group_overflow_excess (rm : ReplicationManager)
    (spec : ReplicationController) (w : World) (podList : PodList) :
  let ctx := specContext spec in
  let active := filterActivePods (Pod_Items podList) in
  ListPods (kubeClient rm) (trace w) ctx (specSelector spec) = inl podList →
  (0 ≤ Replicas (RC_Spec spec))%Z →
  is_int (len active) →
  (two31 ≤ len active - Replicas (RC_Spec spec) < two32)%Z →
  syncReplicationController schedule racy rm spec w =
    (Panic, emit (ReqListPods ctx (specSelector spec)) w).
Proof.
  intros ctx active Hlist Hpos Hint Hover.
  assert (Hlt : (Replicas (RC_Spec spec) < len active)%Z) by (unfold two31 in *; lia).
  rewrite (sync_deletion_branch rm spec w podList) by done.
  unfold bind. rewrite fan_out_wait_negative; [done|].
  fold active. unfold wrap_int32, two31, two32 in *.
  set (z := (len active - Replicas (RC_Spec spec))%Z) in *.
  replace (z + 2147483648)%Z with ((z - 2147483648) + 1 * 4294967296)%Z by lia.
  rewrite Z.mod_add by lia. rewrite Z.mod_small; lia.
Qed.

(** Once the listing has succeeded no branch returns an error, whatever the
    pod control does. *)
Lemma sync_no_error_after_list (rm : ReplicationManager) (spec : ReplicationController)
    (w : World) (podList : PodList) (err : error) :
  ListPods (kubeClient rm) (trace w) (specContext spec) (specSelector spec) = inl podList →
  fst (syncReplicationController schedule racy rm spec w) ≠ Ret (Some err).
Proof.
  intros Hlist. unfold syncReplicationController, bind, call_ListPods.
  fold (specContext spec) (specSelector spec). rewrite Hlist.
  repeat case_match; simplify_eq; unfold ret; simpl; congruence.
Qed.


(** C2: when the listing shows more active pods than the specification asks
    for (a non-negative count; an excess below 2^31, which a listing of
    fewer than 2^31 pods always gives), one reconciliation issues exactly
    [active - Replicas] deletions, of the first [active - Replicas] active
    pods of the listing (in the order the goroutines happen to run), and no
    creation. *)
Theorem reconcile_deletes_excess (c : Interface) (spec : ReplicationController)
    (w : World) (podList : PodList) :
  let ctx := specContext spec in
  let active := filterActivePods (Pod_Items podList) in
  let a := len active in
  let t := Replicas (RC_Spec spec) in
  ListPods c (trace w) ctx (specSelector spec) = inl podList →
  (0 ≤ t)%Z →
  is_int a →
  (t < a)%Z →
  (a - t < two31)%Z →
  ∃ w',
    syncReplicationController schedule racy (NewReplicationManager schedule racy c) spec w
      = (Ret None, w')
    ∧ podControlCalls (issued w w') ≡ₚ
        (λ p, CallDeletePod ctx (Pod_ID p)) <$> take (Z.to_nat (a - t)) active
    ∧ deleteRequests (issued w w') ≡ₚ
        (λ p, ReqDeletePod ctx (Pod_ID p)) <$> take (Z.to_nat (a - t)) active
    ∧ len (deleteRequests (issued w w')) = (a - t)%Z
    ∧ createRequests (issued w w') = [].
Proof.
  intros ctx active a t Hlist Hpos Hint Hlt Hfits.
  eexists. split; [by apply sync_too_many|]. subst ctx a t.
  erewrite issued_app; [|reflexivity]. fold active.
  set (order := schedule _ _).
  assert (Hpick : picked active order ≡ₚ
            take (Z.to_nat (len active - Replicas (RC_Spec spec))) active)
    by apply picked_schedule, schedule_fair.
  destruct (deleteActions_calls (specContext spec) (picked active order)) as (H1 & H2 & H3).
  destruct (listing_no_calls (specContext spec) (specSelector spec)
              (picked active order ≫= deleteActions (specContext spec))) as (L1 & L2 & L3).
  rewrite L1, L2, L3, H1, H2, H3. repeat split; try done.
  - by rewrite Hpick.
  - by rewrite Hpick.
  - unfold len. rewrite length_fmap, Hpick, length_take.
    unfold len in *. lia.
Qed.

(** C3: a reconciliation returns an error exactly when the pod listing
    fails, and then it returns the error of the listing: whatever the pod
    control does and whatever the cluster answers to the create and delete
    requests, no other error is returned. *)
Theorem reconcile_error_iff_list_fails (rm : ReplicationManager)
    (spec : ReplicationController) (w : World) (err : error) :
  fst (syncReplicationController schedule racy rm spec w) = Ret (Some err)
  ↔ ListPods (kubeClient rm) (trace w) (specContext spec) (specSelector spec) = inr err.
Proof.
  split.
  - intros Hres.
    destruct (ListPods (kubeClient rm) (trace w) (specContext spec) (specSelector spec))
      as [podList|err'] eqn:Hlist.
    + by destruct (sync_no_error_after_list rm spec w podList err Hlist).
    + rewrite (sync_list_fails rm spec w err' Hlist) in Hres.
      simpl in Hres. congruence.
  - intros Hlist. by rewrite (sync_list_fails rm spec w err Hlist).
Qed.


(** A batch of [n] creations that do not race, or of [n] deletions of listed
    pods, runs every one of its operations and returns normally, for every
    cluster: whatever subset of the requests fails, all [n] requests are
    made, and they are the same requests. *)
Theorem batch_without_race_runs_every_operation (c : Interface) (ctx : Context)
    (w : World) (n : nat) :
  (Z.of_nat n < two31)%Z →
  (∀ spec, raceFree racy n spec → ∃ w',
      fan_out_wait schedule (Z.of_nat n)
        (createGoroutine racy (RealPodControl c) ctx spec n) w = (Ret tt, w')
      ∧ createRequests (issued w w') =
          replicate n (ReqCreatePod ctx (replicaPod spec)
                         (read_labels (stamped spec (heap w))
                            (Tpl_Labels (Template (RC_Spec spec)))))
      ∧ length (podControlCalls (issued w w')) = n)
  ∧ (∀ filteredList, n ≤ length filteredList → ∃ w',
      fan_out_wait schedule (Z.of_nat n)
        (deleteGoroutine (RealPodControl c) ctx filteredList) w = (Ret tt, w')
      ∧ deleteRequests (issued w w') ≡ₚ
          (λ p, ReqDeletePod ctx (Pod_ID p)) <$> take n filteredList
      ∧ length (podControlCalls (issued w w')) = n).
Proof.
  intros Hfits. split.
  - intros spec Hfree. rewrite fan_out_wait_fits by lia. rewrite Nat2Z.id.
    unfold fan_out.
    destruct (create_batch racy c ctx spec n (schedule (trace w) n) w Hfree)
      as (w' & d & Hrun & Htr & _ & Hcalls & Hcre & _).
    exists w'. rewrite (issued_app _ _ _ Htr), Hcalls, Hcre, schedule_length.
    by rewrite length_replicate.
  - intros filteredList Hn. rewrite fan_out_wait_fits by lia. rewrite Nat2Z.id.
    unfold fan_out. eexists. split.
    { apply delete_batch. by apply schedule_in_range. }
    erewrite issued_app; [|reflexivity].
    set (order := schedule _ _).
    destruct (deleteActions_calls ctx (picked filteredList order)) as (H1 & H2 & _).
    rewrite H1, H2, length_fmap. split.
    + by rewrite (picked_schedule filteredList order n (schedule_fair _ _)).
    + rewrite picked_all; [apply schedule_length|by apply schedule_in_range].
Qed.

(** C8: for a non-negative replica count, every index at which a deleting
    goroutine reads the filtered list is below the length of that list, so
    the deletion branch never panics. *)
Theorem deletion_indices_in_range (c : Interface) (ctx : Context)
    (spec : ReplicationController) (filteredList : list Pod) (w : World) :
  let diff := replicaDiff filteredList spec in
  (0 ≤ Replicas (RC_Spec spec))%Z →
  is_int (Replicas (RC_Spec spec)) →
  is_int (len filteredList) →
  (0 < diff)%Z →
  Forall (λ ix, ix < length filteredList) (schedule (trace w) (Z.to_nat diff))
  ∧ fst (fan_out schedule (Z.to_nat diff)
           (deleteGoroutine (RealPodControl c) ctx filteredList) w) = Ret tt.
Proof.
  intros diff Hpos Hint Hlen Hdiff.
  pose proof (len_nonneg filteredList) as Hnn.
  assert (Hd : diff = (len filteredList - Replicas (RC_Spec spec))%Z).
  { apply replicaDiff_exact. unfold is_int, int_min, int_max, two63 in *. lia. }
  assert (Hin : Forall (λ ix, ix < length filteredList)
                  (schedule (trace w) (Z.to_nat diff))).
  { apply schedule_in_range. rewrite Hd. unfold len. lia. }
  split; [exact Hin|]. unfold fan_out. by rewrite delete_batch.
Qed.

End reconcile.

(** ** [createReplica] and the caller's label map *)

(** C9: [createReplica] writes into the label map the specification points
    to.  When the template's label map is non-nil, the map object itself maps
    "replicationController" to the controller's ID afterwards, the request to
    the cluster already carries that entry, and the caller, whose copy of the
    specification holds the same reference, sees it too; no other map
    object changes. *)
Theorem createReplica_stamps_shared_labels (c : Interface) (ctx : Context)
    (spec : ReplicationController) (w : World) (l : loc) (m : gmap string string) :
  let stampedLabels := <["replicationController" := RC_ID spec]> m in
  Tpl_Labels (Template (RC_Spec spec)) = Some l →
  heap w !! l = Some m →
  ∃ w' logged,
    RealPodControl_createReplica c ctx spec w = (Ret tt, w')
    ∧ heap w' !! l = Some stampedLabels
    ∧ read_labels (heap w') (Tpl_Labels (Template (RC_Spec spec))) = Some stampedLabels
    ∧ issued w w' = ReqCreatePod ctx (replicaPod spec) (Some stampedLabels) :: logged
    ∧ (∀ l', l' ≠ l → heap w' !! l' = heap w !! l')
    ∧ (m !! "replicationController" ≠ Some (RC_ID spec) → heap w' ≠ heap w).
Proof.
  intros stampedLabels Hl Hm. rewrite createReplica_run.
  eexists _, _. split; [reflexivity|].
  assert (Hnew : stamped spec (heap w) !! l = Some stampedLabels).
  { unfold stamped. rewrite Hl, lookup_alter_eq, Hm. done. }
  cbn [heap trace]. rewrite Hl. cbn [read_labels]. rewrite Hnew.
  repeat split; try done.
  - by apply issued_app.
  - intros l' Hne. unfold stamped. rewrite Hl. by apply lookup_alter_ne.
  - intros Hfresh Heq. rewrite Heq, Hm in Hnew. apply Hfresh.
    injection Hnew as Hins. rewrite Hins. apply lookup_insert_eq.
Qed.

(** ** The watch loop *)

Lemma steps_S (schedule : list Action → nat → list nat) (rm : ReplicationManager)
    (n : nat) (m : Machine) :
  steps schedule rm (S n) m =
    match step schedule rm m with
    | Some m' => steps schedule rm n m'
    | None => m
    end.
Proof. reflexivity. Qed.

(** Entering [watchControllers]: the watch is requested from the cursor. *)
Lemma step_disconnected (schedule : list Action → nat → list nat)
    (rm : ReplicationManager) (m : Machine) :
  pc m = Disconnected →
  ∃ m' logged,
    step schedule rm m = Some m'
    ∧ resourceVersion m' = resourceVersion m
    ∧ input m' = input m
    ∧ issued (world m) (world m') =
        ReqWatchReplicationControllers NewContext Everything Everything (resourceVersion m)
          :: logged.
Proof.
  intros Hpc. unfold step. rewrite Hpc. unfold call_WatchReplicationControllers.
  destruct (WatchReplicationControllers _ _ _ _ _ _) as [err|];
    eexists _, _; (split; [reflexivity|]); repeat split; simpl.
  - apply issued_app. simpl. rewrite <- app_assoc. reflexivity.
  - apply issued_app. reflexivity.
Qed.

(** Receiving a replication controller: the cursor is assigned, the handler
    has not run yet. *)
Lemma step_recv_controller (schedule : list Action → nat → list nat)
    (rm : ReplicationManager) (m : Machine) (event : Event)
    (rc : ReplicationController) (rest : list Select) :
  pc m = Selecting →
  input m = SelRecv event :: rest →
  Ev_Object event = ObjReplicationController rc →
  step schedule rm m =
    Some {| pc := Syncing rc;
            resourceVersion := uint64_add (RC_ResourceVersion rc) 1;
            world := world m; input := rest |}.
Proof. intros Hpc Hin Hobj. unfold step. by rewrite Hpc, Hin, Hobj. Qed.

Lemma step_syncing (schedule : list Action → nat → list nat)
    (rm : ReplicationManager) (m : Machine) (rc : ReplicationController) :
  pc m = Syncing rc →
  step schedule rm m = Some (resume m (syncHandler rm rc (world m)) Selecting).
Proof. intros Hpc. unfold step. by rewrite Hpc. Qed.

Lemma resume_resourceVersion {A} (m : Machine) (r : Res A * World) (next : Control) :
  resourceVersion (resume m r next) = resourceVersion m.
Proof. by destruct r as [[?|] ?]. Qed.

Lemma resume_input {A} (m : Machine) (r : Res A * World) (next : Control) :
  input (resume m r next) = input m.
Proof. by destruct r as [[?|] ?]. Qed.

Lemma resume_pc {A} (m : Machine) (r : Res A * World) (next : Control) :
  pc (resume m r next) = next ∨ pc (resume m r next) = Crashed.
Proof. destruct r as [[?|] ?]; auto. Qed.

Lemma resume_not_syncing {A} (m : Machine) (r : Res A * World) (next : Control)
    (rc : ReplicationController) :
  next ≠ Syncing rc → pc (resume m r next) ≠ Syncing rc.
Proof. by destruct r as [[?|] ?]. Qed.

(** The cursor changes only when a replication controller is received. *)
Lemma step_cursor_changes (schedule : list Action → nat → list nat)
    (rm : ReplicationManager) (m m' : Machine) :
  step schedule rm m = Some m' →
  resourceVersion m' ≠ resourceVersion m →
  ∃ event rc rest,
    pc m = Selecting ∧ input m = SelRecv event :: rest
    ∧ Ev_Object event = ObjReplicationController rc
    ∧ pc m' = Syncing rc
    ∧ resourceVersion m' = uint64_add (RC_ResourceVersion rc) 1
    ∧ input m' = rest.
Proof.
  unfold step. intros Hstep Hneq. destruct (pc m) eqn:Hpc.
  - exfalso. apply Hneq. unfold call_WatchReplicationControllers in Hstep.
    destruct (WatchReplicationControllers _ _ _ _ _ _); by simplify_eq.
  - destruct (input m) as [|[|event|] rest] eqn:Hin; [done| | |by simplify_eq].
    + exfalso. apply Hneq. simplify_eq. by rewrite resume_resourceVersion.
    + destruct (Ev_Object event) as [rc| |] eqn:Hobj; simplify_eq.
      by exists event, rc, rest.
  - exfalso. apply Hneq. simplify_eq. by rewrite resume_resourceVersion.
  - done.
Qed.

Section watch.
Variable schedule : list Action → nat → list nat.
Variable rm : ReplicationManager.

(** The stream closes after the handler has returned: the next call of
    [watchControllers] asks for the watch from the cursor as it stands. *)
Lemma reconnect_after_close (cursor : Z) (w : World) (tail : list Select) :
  ∃ logged,
    issued w (world (steps schedule rm 2 (selecting cursor w (SelClosed :: tail)))) =
      ReqWatchReplicationControllers NewContext Everything Everything cursor :: logged.
Proof.
  rewrite steps_S. unfold step at 1. cbn [selecting pc input].
  set (m := Build_Machine Disconnected _ _ _).
  destruct (step_disconnected schedule rm m eq_refl) as (m' & logged & Hstep & _ & _ & Hiss).
  exists logged. rewrite steps_S, Hstep. exact Hiss.
Qed.

(** C4 (amended): on an event that carries a replication controller at a
    resource version [v] below the largest [uint64], the cursor is [v + 1]
    at the point where the handler is about to be called and has not run
    yet; it is still [v + 1] after the handler, whatever the handler did or
    returned; and when the handler returns and the stream then closes, the
    next watch is requested from exactly [v + 1]. *)
Theorem watch_cursor_set_before_sync (m : Machine) (event : Event)
    (rc : ReplicationController) (rest : list Select) :
  let v := RC_ResourceVersion rc in
  pc m = Selecting →
  input m = SelRecv event :: rest →
  Ev_Object event = ObjReplicationController rc →
  (0 ≤ v < uint64_max)%Z →
  ∃ m1,
    step schedule rm m = Some m1
    ∧ pc m1 = Syncing rc ∧ world m1 = world m
    ∧ resourceVersion m1 = (v + 1)%Z
    ∧ (∃ m2, step schedule rm m1 = Some m2
             ∧ m2 = resume m1 (syncHandler rm rc (world m)) Selecting
             ∧ resourceVersion m2 = (v + 1)%Z)
    ∧ (∀ res w2 tail,
         syncHandler rm rc (world m) = (Ret res, w2) →
         rest = SelClosed :: tail →
         ∃ logged,
           issued w2 (world (steps schedule rm 4 m)) =
             ReqWatchReplicationControllers NewContext Everything Everything (v + 1)
               :: logged).
Proof.
  intros v Hpc Hin Hobj Hv. subst v.
  pose proof (step_recv_controller schedule rm m event rc rest Hpc Hin Hobj) as Hstep.
  rewrite (uint64_add_1 _ Hv) in Hstep.
  set (m1 := Build_Machine (Syncing rc) _ (world m) rest) in Hstep.
  pose proof (step_syncing schedule rm m1 rc eq_refl) as Hsync.
  exists m1. repeat split; try done.
  - eexists. split; [exact Hsync|]. split; [done|]. by rewrite resume_resourceVersion.
  - intros res w2 tail Hret ->.
    rewrite steps_S, Hstep, steps_S, Hsync. cbn [world m1]. rewrite Hret. cbn [resume].
    apply reconnect_after_close.
Qed.

(** C10: an event that carries anything but a replication controller is
    logged and skipped: the loop stays at the [select] with the cursor
    unchanged, so that after a close the watch is requested again from the
    cursor from before the skipped event.  Conversely, whenever a step
    changes the cursor, it is the receipt of a replication controller. *)
Theorem watch_skips_other_objects (m : Machine) (event : Event) (rest : list Select) :
  pc m = Selecting →
  input m = SelRecv event :: rest →
  (∀ rc, Ev_Object event ≠ ObjReplicationController rc) →
  (∃ m1,
     step schedule rm m = Some m1
     ∧ pc m1 = Selecting ∧ input m1 = rest
     ∧ resourceVersion m1 = resourceVersion m
     ∧ issued (world m) (world m1) = [GlogErrorf "unexpected object: %#v" ""]
     ∧ ∀ tail, rest = SelClosed :: tail →
         ∃ logged,
           issued (world m1) (world (steps schedule rm 3 m)) =
             ReqWatchReplicationControllers NewContext Everything Everything
               (resourceVersion m) :: logged)
  ∧ (∀ m0 m0',
       step schedule rm m0 = Some m0' →
       resourceVersion m0' ≠ resourceVersion m0 →
       ∃ event0 rc0 rest0,
         pc m0 = Selecting ∧ input m0 = SelRecv event0 :: rest0
         ∧ Ev_Object event0 = ObjReplicationController rc0).
Proof.
  intros Hpc Hin Hother. split.
  - set (m1 := selecting (resourceVersion m)
                 (emit (GlogErrorf "unexpected object: %#v" "") (world m)) rest).
    assert (Hstep : step schedule rm m = Some m1).
    { unfold step. rewrite Hpc, Hin.
      destruct (Ev_Object event) as [rc| |] eqn:Hobj; [by destruct (Hother rc)|done|done]. }
    exists m1. repeat split; try done.
    + apply issued_emit.
    + intros tail ->. rewrite steps_S, Hstep. apply reconnect_after_close.
  - intros m0 m0' Hstep Hneq.
    destruct (step_cursor_changes schedule rm m0 m0' Hstep Hneq)
      as (event0 & rc0 & rest0 & H1 & H2 & H3 & _).
    by exists event0, rc0, rest0.
Qed.

(** On a stream that respects the cursor, a step never lowers the cursor,
    and the stream that remains respects the new cursor. *)
Lemma step_ordered (m m' : Machine) :
  ordered_from (resourceVersion m) (input m) →
  step schedule rm m = Some m' →
  ordered_from (resourceVersion m') (input m')
  ∧ (resourceVersion m ≤ resourceVersion m')%Z
  ∧ (∀ rc, pc m' = Syncing rc → (resourceVersion m < resourceVersion m')%Z).
Proof.
  intros Hord Hstep.
  destruct (decide (resourceVersion m' = resourceVersion m)) as [Heq|Hneq].
  - rewrite Heq. split; [|split; [lia|]].
    + revert Hstep. unfold step. destruct (pc m) eqn:Hpc.
      * unfold call_WatchReplicationControllers.
        destruct (WatchReplicationControllers _ _ _ _ _ _); by intros [= <-].
      * destruct (input m) as [|[|event|] rest] eqn:Hin; [done| | |by intros [= <-]].
        -- intros [= <-]. by rewrite resume_input.
        -- simpl in Hord. destruct (Ev_Object event) as [rc| |] eqn:Hobj.
           ++ intros [= <-]. simpl in Heq. destruct Hord as ([Hnn _] & Hrange & _).
              rewrite uint64_add_1 in Heq; lia.
           ++ by intros [= <-].
           ++ by intros [= <-].
      * intros [= <-]. by rewrite resume_input.
      * done.
    + intros rc Hpc'. exfalso. revert Hstep Hpc'. unfold step. destruct (pc m) eqn:Hpc.
      * unfold call_WatchReplicationControllers.
        destruct (WatchReplicationControllers _ _ _ _ _ _); by intros [= <-].
      * destruct (input m) as [|[|event|] rest] eqn:Hin; [done| | |by intros [= <-]].
        -- intros [= <-] Hpc'. by apply resume_not_syncing in Hpc'.
        -- simpl in Hord. destruct (Ev_Object event) as [rc'| |] eqn:Hobj.
           ++ intros [= <-] _. simpl in Heq. destruct Hord as ([Hnn _] & Hrange & _).
              rewrite uint64_add_1 in Heq; lia.
           ++ by intros [= <-].
           ++ by intros [= <-].
      * intros [= <-] Hpc'. by apply resume_not_syncing in Hpc'.
      * done.
  - destruct (step_cursor_changes schedule rm m m' Hstep Hneq)
      as (event & rc & rest & Hpc & Hin & Hobj & Hpc' & Hrv & Hin').
    rewrite Hin in Hord. simpl in Hord. rewrite Hobj in Hord.
    destruct Hord as ([Hnn _] & Hrange & Hord).
    rewrite Hrv, Hin', uint64_add_1 by lia. split; [done|]. split; [lia|]. intros _ _. lia.
Qed.

Lemma steps_stuck (m : Machine) (n : nat) :
  step schedule rm m = None → steps schedule rm n m = m.
Proof. intros Hs. destruct n; [done|]. by rewrite steps_S, Hs. Qed.

Lemma steps_add (m : Machine) (i k : nat) :
  steps schedule rm (i + k) m = steps schedule rm k (steps schedule rm i m).
Proof.
  revert m. induction i as [|i IH]; intros m; [done|].
  change (S i + k) with (S (i + k)). rewrite !steps_S.
  destruct (step schedule rm m) as [m'|] eqn:Hs; [apply IH|].
  by rewrite steps_stuck.
Qed.

Lemma steps_ordered (m : Machine) (n : nat) :
  ordered_from (resourceVersion m) (input m) →
  ordered_from (resourceVersion (steps schedule rm n m)) (input (steps schedule rm n m))
  ∧ (resourceVersion m ≤ resourceVersion (steps schedule rm n m))%Z.
Proof.
  revert m. induction n as [|n IH]; intros m Hord; [by split|].
  rewrite steps_S. destruct (step schedule rm m) as [m'|] eqn:Hs; [|by split].
  destruct (step_ordered m m' Hord Hs) as (Hord' & Hle & _).
  destruct (IH m' Hord') as [Hinv Hle']. split; [done|lia].
Qed.

(** C5 (amended): on a stream that respects the cursor (every replication
    controller it delivers has a resource version at or after the cursor of
    that moment and below the largest [uint64]) the cursor never decreases
    along the run, and each update sets it to the version just received plus
    one, which is strictly more than it was. *)
Theorem watch_cursor_increases_on_ordered_stream (m : Machine) :
  ordered_from (resourceVersion m) (input m) →
  cursor_monotone schedule rm m
  ∧ ∀ n m2,
      let m1 := steps schedule rm n m in
      step schedule rm m1 = Some m2 →
      ∀ rc, pc m2 = Syncing rc →
        resourceVersion m2 = (RC_ResourceVersion rc + 1)%Z
        ∧ (resourceVersion m1 < resourceVersion m2)%Z.
Proof.
  intros Hord. split.
  - intros i j Hij. replace j with (i + (j - i)) by lia. rewrite steps_add.
    apply steps_ordered. by apply steps_ordered.
  - intros n m2 m1 Hstep rc Hpc2.
    destruct (steps_ordered m n Hord) as [Hord1 _]. fold m1 in Hord1.
    destruct (step_ordered m1 m2 Hord1 Hstep) as (_ & _ & Hlt).
    specialize (Hlt rc Hpc2). split; [|done].
    assert (Hneq : resourceVersion m2 ≠ resourceVersion m1) by lia.
    destruct (step_cursor_changes schedule rm m1 m2 Hstep Hneq)
      as (event & rc' & rest & _ & Hin & Hobj & Hpc' & Hrv & _).
    rewrite Hpc2 in Hpc'. injection Hpc' as <-.
    rewrite Hin in Hord1. simpl in Hord1. rewrite Hobj in Hord1.
    destruct Hord1 as ([Hnn _] & Hrange & _). rewrite Hrv. apply uint64_add_1. lia.
Qed.

End watch.

(** * The properties on concrete runs *)

Lemma in_order_fair : ∀ h n, in_order h n ≡ₚ seq 0 n.
Proof. done. Defined.

Lemma last_first_fair : ∀ h n, last_first h n ≡ₚ seq 0 n.
Proof. intros h n. unfold last_first. apply reverse_Permutation. Defined.

Lemma is_int_3 : is_int 3.
Proof. unfold is_int, int_min, int_max, two63. lia. Defined.

Lemma never_raceFree (n : nat) (spec : ReplicationController) : raceFree never n spec.
Proof. right. right. done. Defined.



(** Three replicas wanted, five active pods listed: the first two of the
    active pods are deleted, here the second before the first. *)
Lemma reconcile_deletes_excess_witness :
  (∀ h n, last_first h n ≡ₚ seq 0 n)
  ∧ ListPods (cluster five_pods None) (trace world0) (specContext (web 3 7))
      (specSelector (web 3 7)) = inl {| Pod_Items := five_pods |}
  ∧ (0 ≤ Replicas (RC_Spec (web 3 7)))%Z
  ∧ is_int (len (filterActivePods five_pods))
  ∧ (Replicas (RC_Spec (web 3 7)) < len (filterActivePods five_pods))%Z
  ∧ (len (filterActivePods five_pods) - Replicas (RC_Spec (web 3 7)) < two31)%Z
  ∧ ∃ w', syncReplicationController last_first never
            (NewReplicationManager last_first never (cluster five_pods None)) (web 3 7) world0
            = (Ret None, w')
          ∧ deleteRequests (issued world0 w') ≡ₚ
              [ReqDeletePod web_ctx "a"; ReqDeletePod web_ctx "c"]
          ∧ createRequests (issued world0 w') = [].
Proof.
  assert (Hpos : (0 ≤ Replicas (RC_Spec (web 3 7)))%Z) by (vm_compute; discriminate).
  assert (Hint : is_int (len (filterActivePods five_pods)))
    by (vm_compute; split; discriminate).
  assert (Hlt : (Replicas (RC_Spec (web 3 7)) < len (filterActivePods five_pods))%Z)
    by (vm_compute; reflexivity).
  assert (Hfits : (len (filterActivePods five_pods) - Replicas (RC_Spec (web 3 7))
                     < two31)%Z)
    by (vm_compute; reflexivity).
  split; [exact last_first_fair|]. split; [reflexivity|]. split; [exact Hpos|].
  split; [exact Hint|]. split; [exact Hlt|]. split; [exact Hfits|].
  destruct (reconcile_deletes_excess last_first last_first_fair never
              (cluster five_pods None)
              (web 3 7) world0 {| Pod_Items := five_pods |} eq_refl Hpos Hint Hlt Hfits)
    as (w' & Hrun & _ & Hdel & _ & Hcre).
  exists w'. split; [exact Hrun|]. split; [exact Hdel|exact Hcre].
Defined.

(** The listing fails and its error is returned; the listing succeeds, the
    first delete request fails, and no error is returned. *)
Lemma reconcile_error_iff_list_fails_witness :
  fst (syncReplicationController in_order never
         (NewReplicationManager in_order never unreachable) (web 3 7) world0)
    = Ret (Some "etcd down")
  ∧ fst (syncReplicationController last_first never rm_five (web 3 7) world0)
      ≠ Ret (Some "connection refused").
Proof.
  split.
  - apply (reconcile_error_iff_list_fails in_order never
             (NewReplicationManager in_order never unreachable) (web 3 7) world0
             "etcd down").
    reflexivity.
  - intros Hres.
    apply (reconcile_error_iff_list_fails last_first never rm_five (web 3 7) world0
             "connection refused") in Hres.
    discriminate Hres.
Defined.


(** A batch of three over six listed pods. *)
Lemma batch_without_race_runs_every_operation_witness :
  (∀ h n, in_order h n ≡ₚ seq 0 n)
  ∧ (Z.of_nat 3 < two31)%Z
  ∧ 3 ≤ length five_pods
  ∧ (∃ w', fan_out_wait in_order (Z.of_nat 3)
             (createGoroutine never (RealPodControl (cluster [] None)) web_ctx (web 3 7) 3)
             world0 = (Ret tt, w')
           ∧ length (createRequests (issued world0 w')) = 3)
  ∧ (∃ w', fan_out_wait in_order (Z.of_nat 3)
             (deleteGoroutine (RealPodControl (cluster [] None)) web_ctx five_pods) world0
             = (Ret tt, w')
           ∧ deleteRequests (issued world0 w') ≡ₚ
               [ReqDeletePod web_ctx "a"; ReqDeletePod web_ctx "b"; ReqDeletePod web_ctx "c"]).
Proof.
  assert (Hfits : (Z.of_nat 3 < two31)%Z) by (vm_compute; reflexivity).
  assert (Hn : 3 ≤ length five_pods) by (vm_compute; lia).
  split; [exact in_order_fair|]. split; [exact Hfits|]. split; [exact Hn|].
  destruct (batch_without_race_runs_every_operation in_order in_order_fair never
              (cluster [] None) web_ctx world0 3 Hfits) as [Hcreate Hdelete].
  split.
  - destruct (Hcreate (web 3 7) (never_raceFree 3 (web 3 7))) as (w' & Hrun & Hreq & _).
    exists w'. split; [exact Hrun|]. rewrite Hreq. reflexivity.
  - destruct (Hdelete five_pods Hn) as (w' & Hrun & Hreq & _).
    exists w'. split; [exact Hrun|exact Hreq].
Defined.

(** Five active pods, three wanted: the two indices read are 1 and 0. *)
Lemma deletion_indices_in_range_witness :
  (∀ h n, last_first h n ≡ₚ seq 0 n)
  ∧ (0 ≤ Replicas (RC_Spec (web 3 7)))%Z
  ∧ is_int (Replicas (RC_Spec (web 3 7)))
  ∧ is_int (len (filterActivePods five_pods))
  ∧ (0 < replicaDiff (filterActivePods five_pods) (web 3 7))%Z
  ∧ Forall (λ ix, ix < length (filterActivePods five_pods))
      (last_first (trace world0)
         (Z.to_nat (replicaDiff (filterActivePods five_pods) (web 3 7)))).
Proof.
  assert (Hpos : (0 ≤ Replicas (RC_Spec (web 3 7)))%Z) by (vm_compute; discriminate).
  assert (Hint : is_int (len (filterActivePods five_pods)))
    by (vm_compute; split; discriminate).
  assert (Hdiff : (0 < replicaDiff (filterActivePods five_pods) (web 3 7))%Z)
    by (vm_compute; reflexivity).
  split; [exact last_first_fair|]. split; [exact Hpos|]. split; [exact is_int_3|].
  split; [exact Hint|]. split; [exact Hdiff|].
  exact (proj1 (deletion_indices_in_range last_first last_first_fair (cluster [] None)
                  web_ctx (web 3 7) (filterActivePods five_pods) world0
                  Hpos is_int_3 Hint Hdiff)).
Defined.

(** The template of "web" points to the map object 1, which the caller's
    world holds as [{app: web}]. *)
Lemma createReplica_stamps_shared_labels_witness :
  Tpl_Labels (Template (RC_Spec (web 3 7))) = Some 1%positive
  ∧ heap world0 !! 1%positive = Some {["app" := "web"]}
  ∧ ∃ w', RealPodControl_createReplica (cluster [] None) web_ctx (web 3 7) world0
            = (Ret tt, w')
          ∧ heap w' !! 1%positive =
              Some (<["replicationController" := "web"]> {["app" := "web"]})
          ∧ heap w' ≠ heap world0.
Proof.
  assert (Hm : heap world0 !! 1%positive = Some ({["app" := "web"]} : gmap string string))
    by (vm_compute; reflexivity).
  split; [reflexivity|]. split; [exact Hm|].
  destruct (createReplica_stamps_shared_labels (cluster [] None) web_ctx (web 3 7)
              world0 1%positive {["app" := "web"]} eq_refl Hm)
    as (w' & logged & Hrun & Hheap & _ & _ & _ & Hchanged).
  exists w'. split; [exact Hrun|]. split; [exact Hheap|].
  apply Hchanged. vm_compute. discriminate.
Defined.

(** An event at resource version 42, then the stream closes: the handler is
    entered with the cursor at 43 and the next watch starts from 43. *)
Lemma watch_cursor_set_before_sync_witness :
  pc (selecting 0 world0 [SelRecv (mkEvent Added (web 3 42)); SelClosed]) = Selecting
  ∧ (0 ≤ RC_ResourceVersion (web 3 42) < uint64_max)%Z
  ∧ (∃ m1, step in_order rm_empty
             (selecting 0 world0 [SelRecv (mkEvent Added (web 3 42)); SelClosed]) = Some m1
           ∧ pc m1 = Syncing (web 3 42) ∧ resourceVersion m1 = 43%Z)
  ∧ ∃ logged,
      issued (snd (syncHandler rm_empty (web 3 42) world0))
        (world (steps in_order rm_empty 4
                  (selecting 0 world0 [SelRecv (mkEvent Added (web 3 42)); SelClosed]))) =
        ReqWatchReplicationControllers NewContext Everything Everything 43 :: logged.
Proof.
  assert (Hv : (0 ≤ RC_ResourceVersion (web 3 42) < uint64_max)%Z)
    by (vm_compute; split; [discriminate|reflexivity]).
  split; [reflexivity|]. split; [exact Hv|].
  destruct (watch_cursor_set_before_sync in_order rm_empty
              (selecting 0 world0 [SelRecv (mkEvent Added (web 3 42)); SelClosed])
              (mkEvent Added (web 3 42)) (web 3 42) [SelClosed]
              eq_refl eq_refl eq_refl Hv)
    as (m1 & Hstep & Hpc & _ & Hrv & _ & Hreconnect).
  split.
  - exists m1. split; [exact Hstep|]. split; [exact Hpc|exact Hrv].
  - apply (Hreconnect None (snd (syncHandler rm_empty (web 3 42) world0)) []);
      [vm_compute|]; reflexivity.
Defined.

(** C4, as stated, fails at the largest resource version: the increment
    wraps, the handler is entered with the cursor at 0, and after the stream
    closes the watch is requested from 0, which is not at least [v + 1]. *)
Lemma watch_cursor_wraps_at_uint64_max :
  is_uint64 (RC_ResourceVersion (web 3 uint64_max))
  ∧ step in_order rm_empty
      (selecting 7 world0 [SelRecv (mkEvent Modified (web 3 uint64_max)); SelClosed])
    = Some {| pc := Syncing (web 3 uint64_max); resourceVersion := 0;
              world := world0; input := [SelClosed] |}
  ∧ last (trace (world (steps in_order rm_empty 4
            (selecting 7 world0 [SelRecv (mkEvent Modified (web 3 uint64_max)); SelClosed]))))
    = Some (ReqWatchReplicationControllers NewContext Everything Everything 0)
  ∧ ¬ (RC_ResourceVersion (web 3 uint64_max) + 1 ≤ 0)%Z.
Proof.
  split; [vm_compute; split; discriminate|].
  split; [vm_compute; reflexivity|].
  split; [vm_compute; reflexivity|].
  vm_compute. intros H. apply H. reflexivity.
Qed.

(** A stream in version order from the initial cursor. *)
Lemma watch_cursor_increases_on_ordered_stream_witness :
  ordered_from (resourceVersion (Run world0 stream_5_pod_9)) (input (Run world0 stream_5_pod_9))
  ∧ cursor_monotone in_order rm_empty (Run world0 stream_5_pod_9)
  ∧ (resourceVersion (steps in_order rm_empty 1 (Run world0 stream_5_pod_9))
       < resourceVersion (steps in_order rm_empty 2 (Run world0 stream_5_pod_9)))%Z.
Proof.
  assert (Hord : ordered_from (resourceVersion (Run world0 stream_5_pod_9))
                   (input (Run world0 stream_5_pod_9))).
  { simpl. unfold is_uint64, uint64_max, two64. lia. }
  split; [exact Hord|].
  destruct (watch_cursor_increases_on_ordered_stream in_order rm_empty
              (Run world0 stream_5_pod_9) Hord) as [Hmono Hupd].
  split; [exact Hmono|].
  apply (Hupd 1 (steps in_order rm_empty 2 (Run world0 stream_5_pod_9))
           eq_refl (web 3 5) eq_refl).
Defined.

(** C5, as stated, fails on a stream that delivers version 5 and then
    version 3: the cursor goes from 6 down to 4. *)
Lemma watch_cursor_can_decrease :
  resourceVersion (steps in_order rm_empty 2 (Run world0 stream_5_then_3)) = 6%Z
  ∧ resourceVersion (steps in_order rm_empty 4 (Run world0 stream_5_then_3)) = 4%Z
  ∧ ¬ cursor_monotone in_order rm_empty (Run world0 stream_5_then_3).
Proof.
  split; [vm_compute; reflexivity|]. split; [vm_compute; reflexivity|].
  intros Hmono. specialize (Hmono 2 4 ltac:(lia)).
  vm_compute in Hmono. apply Hmono. reflexivity.
Qed.

(** A pod on the stream of replication controllers. *)
Lemma watch_skips_other_objects_witness :
  pc (selecting 6 world0 [SelRecv {| Ev_Type := Added; Ev_Object := ObjPod (mkPod "x" PodRunning) |};
                          SelClosed]) = Selecting
  ∧ (∀ rc, ObjPod (mkPod "x" PodRunning) ≠ ObjReplicationController rc)
  ∧ ∃ m1 logged,
      step in_order rm_empty
        (selecting 6 world0 [SelRecv {| Ev_Type := Added; Ev_Object := ObjPod (mkPod "x" PodRunning) |};
                             SelClosed]) = Some m1
      ∧ resourceVersion m1 = 6%Z
      ∧ issued (world m1)
          (world (steps in_order rm_empty 3
             (selecting 6 world0
                [SelRecv {| Ev_Type := Added; Ev_Object := ObjPod (mkPod "x" PodRunning) |};
                 SelClosed]))) =
          ReqWatchReplicationControllers NewContext Everything Everything 6 :: logged.
Proof.
  assert (Hother : ∀ rc, ObjPod (mkPod "x" PodRunning) ≠ ObjReplicationController rc)
    by (intros rc; discriminate).
  split; [reflexivity|]. split; [exact Hother|].
  destruct (watch_skips_other_objects in_order rm_empty
              (selecting 6 world0
                 [SelRecv {| Ev_Type := Added; Ev_Object := ObjPod (mkPod "x" PodRunning) |};
                  SelClosed])
              {| Ev_Type := Added; Ev_Object := ObjPod (mkPod "x" PodRunning) |}
              [SelClosed] eq_refl eq_refl Hother)
    as [(m1 & Hstep & _ & _ & Hrv & _ & Hreconnect) _].
  destruct (Hreconnect [] eq_refl) as [logged Hlogged].
  exists m1, logged. split; [exact Hstep|]. split; [exact Hrv|exact Hlogged].
Defined.

(** ** Further runs *)

(** One create request of three fails: it leaves one line in the log, and
    the other two requests are made all the same. *)
Example create_batch_with_one_failure :
  let r := fan_out_wait in_order 3
             (createGoroutine never (RealPodControl (cluster [] None)) web_ctx (web 3 7) 3)
             world0 in
  fst r = Ret tt
  ∧ length (createRequests (trace (snd r))) = 3
  ∧ List.filter is_Glog (trace (snd r)) = [GlogErrorf createErrorFormat "connection refused"].
Proof. vm_compute. repeat split. Qed.

(** Three creations for "web" under a runtime that catches the overlap
    once a first pod has been requested: one pod is requested, then the
    process stops. *)
Example create_batch_stops_after_first_create :
  let r := fan_out_wait in_order 3
             (createGoroutine after_first_create (RealPodControl (cluster [] None)) web_ctx
                (web 3 7) 3) world0 in
  fst r = Panic
  ∧ length (createRequests (trace (snd r))) = 1.
Proof. vm_compute. split; reflexivity. Qed.

(** The same through a reconciliation: three replicas wanted, none listed,
    and one pod requested before the process stops. *)
Example reconcile_stops_after_first_create :
  let r := syncReplicationController in_order after_first_create
             (NewReplicationManager in_order after_first_create (cluster [] None))
             (web 3 7) world0 in
  fst r = Panic
  ∧ length (createRequests (trace (snd r))) = 1.
Proof. vm_compute. split; reflexivity. Qed.

(** A single creation cannot race. *)
Example reconcile_one_missing_cannot_race :
  let r := syncReplicationController in_order after_first_create
             (NewReplicationManager in_order after_first_create (cluster one_pod None))
             (web 2 7) world0 in
  fst r = Ret None
  ∧ length (createRequests (trace (snd r))) = 1.
Proof. vm_compute. split; reflexivity. Qed.

(** When the listing fails nothing else is requested. *)
Example reconcile_list_failure :
  syncReplicationController in_order never (NewReplicationManager in_order never unreachable)
    (web 3 7) world0
  = (Ret (Some "etcd down"),
     emit (ReqListPods web_ctx (specSelector (web 3 7))) world0).
Proof. vm_compute. reflexivity. Qed.

(** A negative replica count is outside the data model: with five active
    pods and a count of -1 the deletion loop asks for a sixth pod, and the
    goroutine that reads index 5 panics. *)
Example reconcile_negative_replicas_panics :
  fst (syncReplicationController last_first never rm_five (web (-1) 7) world0) = Panic.
Proof. vm_compute. reflexivity. Qed.

(** A deletion event whose object still asks for two replicas, on a cluster
    without pods: two pods are created. *)
Example deletion_event_reconciles_old_count :
  let m := steps in_order rm_empty 2
             (selecting 0 world0 [SelRecv (mkEvent Deleted (web 2 5))]) in
  pc m = Selecting
  ∧ podControlCalls (trace (world m)) =
      [CallCreateReplica web_ctx (web 2 5); CallCreateReplica web_ctx (web 2 5)].
Proof. vm_compute. split; reflexivity. Qed.

(** * More of the controller *)

(** ** [filterActivePods] *)

(** [filterActivePods] keeps exactly the pods whose condition is not
    "Terminated", in the order of the listing, and filtering a second time
    changes nothing. *)
Theorem filterActivePods_keeps_exactly_active (pods : list Pod) :
  (∀ p, p ∈ filterActivePods pods
        ↔ p ∈ pods ∧ Condition (Pod_Status p) ≠ PodTerminated)
  ∧ sublist (filterActivePods pods) pods
  ∧ filterActivePods (filterActivePods pods) = filterActivePods pods.
Proof.
  unfold filterActivePods. split; [|split].
  - intros p. rewrite list_elem_of_filter.
    split; intros [H1 H2]; split; try assumption; intros E; [by apply H1|by apply H2].
  - apply sublist_filter.
  - rewrite list_filter_filter. apply list_filter_iff. intros p. tauto.
Qed.

(** ** [createReplica] without a label map *)

(** When the template has no label map (nil), [createReplica] writes
    nothing: every label map is as before and the pod is requested without
    any label, so it does not carry the controller's label. *)
Theorem createReplica_without_label_map (c : Interface) (ctx : Context)
    (spec : ReplicationController) (w : World) :
  Tpl_Labels (Template (RC_Spec spec)) = None →
  ∃ w' logged,
    RealPodControl_createReplica c ctx spec w = (Ret tt, w')
    ∧ heap w' = heap w
    ∧ Pod_Labels (replicaPod spec) = None
    ∧ issued w w' = ReqCreatePod ctx (replicaPod spec) None :: logged.
Proof.
  intros Hnil. rewrite createReplica_run. eexists _, _. split; [reflexivity|].
  cbn [heap trace]. unfold stamped, replicaPod. rewrite Hnil. cbn [read_labels Pod_Labels].
  repeat split. by apply issued_app.
Qed.

Lemma createReplica_without_label_map_witness :
  Tpl_Labels (Template (RC_Spec (bare 1))) = None
  ∧ ∃ w', RealPodControl_createReplica (cluster [] None) web_ctx (bare 1) world0 = (Ret tt, w')
          ∧ heap w' = heap world0.
Proof.
  split; [reflexivity|].
  destruct (createReplica_without_label_map (cluster [] None) web_ctx (bare 1) world0 eq_refl)
    as (w' & logged & Hrun & Hheap & _).
  exists w'. split; [exact Hrun|exact Hheap].
Defined.

(** ** What a reconciliation leaves alone *)

Lemma preserves_ret (spec : ReplicationController) {A} (a : A) :
  preserves_other_maps spec (ret a).
Proof. by intros w l' _. Qed.

Lemma preserves_panic (spec : ReplicationController) {A} :
  preserves_other_maps spec (@panic A).
Proof. by intros w l' _. Qed.

Lemma preserves_bind (spec : ReplicationController) {A B} (m : M A) (k : A → M B) :
  preserves_other_maps spec m → (∀ a, preserves_other_maps spec (k a)) →
  preserves_other_maps spec (bind m k).
Proof.
  intros Hm Hk w l' Hne. unfold bind. specialize (Hm w l' Hne).
  destruct (m w) as [[a|] w1]; simpl in *; [|done].
  rewrite <- Hm. by apply Hk.
Qed.

Lemma preserves_same_heap (spec : ReplicationController) {A} (m : M A) :
  (∀ w, heap (snd (m w)) = heap w) → preserves_other_maps spec m.
Proof. intros Hm w l' _. by rewrite Hm. Qed.

Lemma preserves_createReplica (c : Interface) (ctx : Context) (spec : ReplicationController) :
  preserves_other_maps spec (invoke_createReplica (RealPodControl c) ctx spec).
Proof.
  intros w l' Hne. rewrite invoke_createReplica_run. cbn [snd heap]. unfold stamped.
  destruct (Tpl_Labels (Template (RC_Spec spec))) as [l|]; [|done].
  apply lookup_alter_ne. congruence.
Qed.

Lemma preserves_deletePod (c : Interface) (ctx : Context) (spec : ReplicationController)
    (podID : string) :
  preserves_other_maps spec (invoke_deletePod (RealPodControl c) ctx podID).
Proof. by apply preserves_same_heap. Qed.

Lemma preserves_run_goroutines (spec : ReplicationController) (body : nat → M unit)
    (order : list nat) :
  (∀ ix, preserves_other_maps spec (body ix)) →
  preserves_other_maps spec (run_goroutines body order).
Proof.
  intros Hbody. induction order as [|ix order IH]; [apply preserves_ret|].
  apply preserves_bind; [apply Hbody|]. intros _. apply IH.
Qed.

Lemma preserves_fan_out_wait (schedule : list Action → nat → list nat)
    (spec : ReplicationController) (delta : Z) (body : nat → M unit) :
  (∀ ix, preserves_other_maps spec (body ix)) →
  preserves_other_maps spec (fan_out_wait schedule delta body).
Proof.
  intros Hbody w l' Hne.
  destruct (fan_out_wait_runs schedule delta body w) as [order ->].
  by apply (preserves_run_goroutines spec body order Hbody w l').
Qed.

Lemma preserves_createGoroutine (racy : list Action → bool) (c : Interface) (ctx : Context)
    (spec : ReplicationController) (goroutines ix : nat) :
  preserves_other_maps spec (createGoroutine racy (RealPodControl c) ctx spec goroutines ix).
Proof.
  unfold createGoroutine. apply preserves_bind; [|intros _; apply preserves_createReplica].
  apply preserves_same_heap. intros w. unfold labelMapRace. by case_match.
Qed.

(** A reconciliation never touches a label map other than the one its
    template points to, whatever the listing shows, whatever the cluster
    answers and in whatever order the goroutines run, a run that ends in a
    panic included. *)
Theorem reconcile_leaves_other_label_maps (schedule : list Action → nat → list nat)
    (racy : list Action → bool)
    (c : Interface) (spec : ReplicationController) (w : World) (l' : loc) :
  Tpl_Labels (Template (RC_Spec spec)) ≠ Some l' →
  heap (snd (syncReplicationController schedule racy
               (NewReplicationManager schedule racy c) spec w))
    !! l' = heap w !! l'.
Proof.
  revert w l'. change (preserves_other_maps spec
    (syncReplicationController schedule racy (NewReplicationManager schedule racy c) spec)).
  unfold syncReplicationController.
  apply preserves_bind; [by apply preserves_same_heap|]. intros [podList|err];
    [|apply preserves_ret].
  repeat case_match.
  - apply preserves_bind; [|intros; apply preserves_ret].
    apply preserves_fan_out_wait. intros ix. apply preserves_createGoroutine.
  - apply preserves_bind; [|intros; apply preserves_ret].
    apply preserves_fan_out_wait. intros ix. unfold deleteGoroutine.
    destruct (_ !! ix); [|apply preserves_panic].
    apply preserves_bind; [apply preserves_deletePod|]. intros; apply preserves_ret.
  - apply preserves_ret.
Qed.

(** "web" is reconciled in a world that holds a second label map: its own
    map is stamped, the other one is as it was. *)
Lemma reconcile_leaves_other_label_maps_witness :
  Tpl_Labels (Template (RC_Spec (web 3 7))) ≠ Some 2%positive
  ∧ heap (snd (syncReplicationController in_order never rm_one (web 3 7) world_two_maps))
      !! 2%positive = Some {["app" := "db"]}
  ∧ heap (snd (syncReplicationController in_order never rm_one (web 3 7) world_two_maps))
      !! 1%positive ≠ heap world_two_maps !! 1%positive.
Proof.
  assert (Hne : Tpl_Labels (Template (RC_Spec (web 3 7))) ≠ Some 2%positive)
    by discriminate.
  split; [exact Hne|]. split.
  - etrans.
    + exact (reconcile_leaves_other_label_maps in_order never (cluster one_pod None)
               (web 3 7) world_two_maps 2%positive Hne).
    + vm_compute. reflexivity.
  - vm_compute. discriminate.
Defined.

(** ** Reconciliation: the balanced case and the choice of victims *)

(** Deleting goroutines, in whatever number and order, a run that ends in
    a panic included, add to the trace the deletion of pods of the list
    they read, and nothing else. *)
Lemma delete_run_any (c : Interface) (ctx : Context) (filteredList : list Pod)
    (order : list nat) (w : World) :
  ∃ pods,
    Forall (λ p, p ∈ filteredList) pods
    ∧ trace (snd (run_goroutines (deleteGoroutine (RealPodControl c) ctx filteredList)
                    order w))
      = trace w ++ (pods ≫= deleteActions ctx).
Proof.
  revert w. induction order as [|ix order IH]; intros w.
  - exists []. split; [done|]. simpl. by rewrite app_nil_r.
  - rewrite run_goroutines_cons. unfold deleteGoroutine at 1.
    destruct (filteredList !! ix) as [p|] eqn:Hp.
    + unfold invoke_deletePod, bind, tell, ret. simpl.
      set (w1 := emit _ (emit _ w)). destruct (IH w1) as (pods & Hpods & Htr).
      exists (p :: pods). split.
      { constructor; [by apply list_elem_of_lookup_2 in Hp|done]. }
      rewrite Htr. subst w1. csimpl. by rewrite <- !app_assoc.
    + exists []. split; [done|]. simpl. by rewrite app_nil_r.
Qed.

Section reconcile_more.
Variable schedule : list Action → nat → list nat.
Hypothesis schedule_fair : ∀ h n, schedule h n ≡ₚ seq 0 n.
Variable racy : list Action → bool.

(** When the listing shows exactly as many active pods as the specification
    asks for, a reconciliation lists the pods and does nothing else: no call
    on the pod control, no request, no label map written. *)
Theorem reconcile_balanced_is_noop (c : Interface) (spec : ReplicationController)
    (w : World) (podList : PodList) :
  ListPods c (trace w) (specContext spec) (specSelector spec) = inl podList →
  Replicas (RC_Spec spec) = len (filterActivePods (Pod_Items podList)) →
  is_int (Replicas (RC_Spec spec)) →
  ∃ w',
    syncReplicationController schedule racy (NewReplicationManager schedule racy c) spec w
      = (Ret None, w')
    ∧ issued w w' = [ReqListPods (specContext spec) (specSelector spec)]
    ∧ heap w' = heap w.
Proof.
  intros Hlist Heq Hint. eexists. split.
  - by apply (sync_balanced schedule racy (NewReplicationManager schedule racy c)
                spec w podList).
  - split; [apply issued_emit|done].
Qed.

Lemma picked_are_listed (filteredList : list Pod) (order : list nat) (p : Pod) :
  p ∈ picked filteredList order → p ∈ filteredList.
Proof.
  unfold picked. rewrite list_elem_of_omap. intros (ix & _ & Hix).
  by apply list_elem_of_lookup_2 in Hix.
Qed.

(** Every delete request of a reconciliation names a pod of the listing
    whose condition is not "Terminated", in the namespace of the
    specification: pods that are terminated, or that were not listed, are
    never deleted. *)
Theorem reconcile_deletes_only_listed_active_pods (c : Interface)
    (spec : ReplicationController) (w : World) (podList : PodList) :
  ListPods c (trace w) (specContext spec) (specSelector spec) = inl podList →
  (0 ≤ Replicas (RC_Spec spec))%Z →
  is_int (len (filterActivePods (Pod_Items podList))) →
  (Replicas (RC_Spec spec) < len (filterActivePods (Pod_Items podList)))%Z →
  Forall (λ act, ∃ p, act = ReqDeletePod (specContext spec) (Pod_ID p)
                      ∧ p ∈ Pod_Items podList
                      ∧ Condition (Pod_Status p) ≠ PodTerminated)
    (deleteRequests
       (issued w (snd (syncReplicationController schedule racy
                         (NewReplicationManager schedule racy c) spec w)))).
Proof.
  intros Hlist Hpos Hint Hlt.
  rewrite (sync_deletion_branch schedule racy (NewReplicationManager schedule racy c)
             spec w podList Hlist Hpos Hint Hlt).
  unfold NewReplicationManager. cbn [kubeClient podControl].
  set (active := filterActivePods (Pod_Items podList)).
  set (listing := ReqListPods _ _). set (w1 := emit listing w).
  set (body := deleteGoroutine _ _ _).
  destruct (fan_out_wait_runs schedule (len active - Replicas (RC_Spec spec)) body w1)
    as [order Horder].
  destruct (delete_run_any c (specContext spec) active order w1) as (pods & Hpods & Htr).
  fold body in Htr. rewrite <- Horder in Htr.
  assert (Hsnd : ∀ k : unit → M (option error),
            (∀ a w', snd (k a w') = w') →
            trace (snd (bind (fan_out_wait schedule (len active - Replicas (RC_Spec spec))
                                body) k w1))
            = trace w ++ listing :: (pods ≫= deleteActions (specContext spec))).
  { intros k Hk. unfold bind.
    destruct (fan_out_wait schedule _ body w1) as [[a|] w2]; cbn [snd] in *;
      rewrite ?Hk, Htr; subst w1; simpl; by rewrite <- app_assoc. }
  erewrite issued_app; [|by apply Hsnd].
  destruct (deleteActions_calls (specContext spec) pods) as (_ & H2 & _).
  destruct (listing_no_calls (specContext spec) (specSelector spec)
              (pods ≫= deleteActions (specContext spec))) as (_ & _ & L3).
  fold listing in L3. rewrite L3, H2. apply Forall_fmap, Forall_forall. intros p Hp.
  rewrite Forall_forall in Hpods. apply Hpods in Hp. unfold active, filterActivePods in Hp.
  apply list_elem_of_filter in Hp as [Hactive Hin].
  exists p. split; [done|]. split; [done|]. intros E. by apply Hactive.
Qed.

End reconcile_more.

Lemma reconcile_balanced_is_noop_witness :
  ListPods (cluster one_pod None) (trace world0) (specContext (web 1 7))
    (specSelector (web 1 7)) = inl {| Pod_Items := one_pod |}
  ∧ Replicas (RC_Spec (web 1 7)) = len (filterActivePods one_pod)
  ∧ is_int (Replicas (RC_Spec (web 1 7)))
  ∧ ∃ w', syncReplicationController in_order never rm_one (web 1 7) world0 = (Ret None, w')
          ∧ issued world0 w' = [ReqListPods web_ctx (specSelector (web 1 7))].
Proof.
  assert (Hint : is_int (Replicas (RC_Spec (web 1 7))))
    by (vm_compute; split; discriminate).
  split; [reflexivity|]. split; [reflexivity|]. split; [exact Hint|].
  destruct (reconcile_balanced_is_noop in_order never (cluster one_pod None) (web 1 7) world0
              {| Pod_Items := one_pod |} eq_refl eq_refl Hint) as (w' & Hrun & Hiss & _).
  exists w'. split; [exact Hrun|exact Hiss].
Defined.

Lemma reconcile_deletes_only_listed_active_pods_witness :
  (∀ h n, last_first h n ≡ₚ seq 0 n)
  ∧ (0 ≤ Replicas (RC_Spec (web 3 7)))%Z
  ∧ is_int (len (filterActivePods five_pods))
  ∧ (Replicas (RC_Spec (web 3 7)) < len (filterActivePods five_pods))%Z
  ∧ Forall (λ act, ∃ p, act = ReqDeletePod (specContext (web 3 7)) (Pod_ID p)
                        ∧ p ∈ five_pods ∧ Condition (Pod_Status p) ≠ PodTerminated)
      (deleteRequests
         (issued world0
            (snd (syncReplicationController last_first never rm_five (web 3 7) world0)))).
Proof.
  assert (Hpos : (0 ≤ Replicas (RC_Spec (web 3 7)))%Z) by (vm_compute; discriminate).
  assert (Hint : is_int (len (filterActivePods five_pods)))
    by (vm_compute; split; discriminate).
  assert (Hlt : (Replicas (RC_Spec (web 3 7)) < len (filterActivePods five_pods))%Z)
    by (vm_compute; reflexivity).
  split; [exact last_first_fair|]. split; [exact Hpos|]. split; [exact Hint|].
  split; [exact Hlt|].
  exact (reconcile_deletes_only_listed_active_pods last_first never
           (cluster five_pods None) (web 3 7) world0 {| Pod_Items := five_pods |}
           eq_refl Hpos Hint Hlt).
Defined.

(** ** The periodic sweep *)

Lemma pickedSpecs_shift (spec : ReplicationController)
    (controllerSpecs : list ReplicationController) (order : list nat) :
  pickedSpecs (spec :: controllerSpecs) (S <$> order) = pickedSpecs controllerSpecs order.
Proof.
  unfold pickedSpecs. induction order as [|i order IH]; [done|].
  csimpl. by rewrite IH.
Qed.

Lemma pickedSpecs_seq (controllerSpecs : list ReplicationController) :
  pickedSpecs controllerSpecs (seq 0 (length controllerSpecs)) = controllerSpecs.
Proof.
  induction controllerSpecs as [|spec l IH]; [done|].
  change (seq 0 (length (spec :: l))) with (0 :: seq 1 (length l)).
  rewrite <- fmap_S_seq. unfold pickedSpecs at 1. csimpl. f_equal.
  fold (pickedSpecs (spec :: l) (S <$> seq 0 (length l))).
  by rewrite pickedSpecs_shift.
Qed.

Section sweep.
Variable schedule : list Action → nat → list nat.
Hypothesis schedule_fair : ∀ h n, schedule h n ≡ₚ seq 0 n.
Variable rm : ReplicationManager.

(** The goroutines of a sweep whose indices are in range do, in their
    order, what [sweepSpec] does for the specifications they pick. *)
Lemma sweep_goroutines (controllerSpecs : list ReplicationController)
    (order : list nat) (w : World) :
  Forall (λ ix, ix < length controllerSpecs) order →
  run_goroutines
    (λ ix, match controllerSpecs !! ix with
           | Some spec =>
               err <~ syncHandler rm spec ;;
               match err with
               | Some e => glog_Errorf "Error synchronizing: %#v" e
               | None => ret tt
               end
           | None => panic
           end) order w
  = run_all (sweepSpec rm <$> pickedSpecs controllerSpecs order) w.
Proof.
  intros Hin. revert w. induction Hin as [|ix order Hix _ IH]; intros w; [done|].
  destruct (lookup_lt_is_Some_2 controllerSpecs ix Hix) as [spec Hspec].
  rewrite run_goroutines_cons. unfold pickedSpecs. csimpl. rewrite Hspec. csimpl.
  unfold bind at 3. fold (sweepSpec rm spec).
  destruct (sweepSpec rm spec w) as [[[]|] w1]; [apply IH|done].
Qed.

(** In the model the goroutines of a sweep run one at a time: a sweep that
    lists fewer than 2^31 specifications does what running the handler on
    each of them, and logging the error it returns, does one after the
    other, in the order the scheduler picks. *)
Lemma synchronize_runs_handlers (w : World) (list : ReplicationControllerList) :
  ListReplicationControllers (kubeClient rm) (trace w) NewContext Everything = inl list →
  (len (RC_Items list) < two31)%Z →
  ∃ handled,
    handled ≡ₚ RC_Items list
    ∧ synchronize schedule rm w =
        run_all (sweepSpec rm <$> handled)
          (emit (ReqListReplicationControllers NewContext Everything) w).
Proof.
  intros Hlist Hfits. unfold synchronize. unfold bind at 1.
  unfold call_ListReplicationControllers. rewrite Hlist.
  rewrite fan_out_wait_fits by (pose proof (len_nonneg (RC_Items list)); lia).
  unfold len. rewrite Nat2Z.id.
  unfold fan_out. set (w1 := emit _ w). set (order := schedule (trace w1) _).
  exists (pickedSpecs (RC_Items list) order). split.
  - rewrite <- (pickedSpecs_seq (RC_Items list)) at 2. unfold pickedSpecs.
    apply omap_Permutation, schedule_fair.
  - apply sweep_goroutines. unfold order. rewrite schedule_fair.
    apply Forall_forall. intros ix Hix. apply elem_of_seq in Hix. lia.
Qed.

Lemma run_all_returns (tasks : list (M unit)) (w : World) :
  Forall (λ task, ∀ w, fst (task w) = Ret tt) tasks → fst (run_all tasks w) = Ret tt.
Proof.
  intros Hall. revert w. induction Hall as [|task tasks Htask _ IH]; intros w; [done|].
  simpl. unfold bind. specialize (Htask w).
  destruct (task w) as [[[]|] w1]; [apply IH|done].
Qed.

(** A sweep absorbs every failure: when the handler itself never panics
    (and the cluster lists fewer than 2^31 specifications, so that their
    number fits the counter of the wait group), the sweep returns normally
    whether the listing fails or succeeds and whichever reconciliations
    return an error. *)
Theorem synchronize_absorbs_errors (w : World) :
  (∀ spec w', fst (syncHandler rm spec w') ≠ Panic) →
  (∀ list, ListReplicationControllers (kubeClient rm) (trace w) NewContext Everything
             = inl list → (len (RC_Items list) < two31)%Z) →
  fst (synchronize schedule rm w) = Ret tt.
Proof.
  intros Hsafe Hfits.
  destruct (ListReplicationControllers (kubeClient rm) (trace w) NewContext Everything)
    as [list|err] eqn:Hlist.
  - destruct (synchronize_runs_handlers w list Hlist (Hfits list eq_refl))
      as (handled & _ & ->).
    apply run_all_returns, Forall_fmap, Forall_forall. intros spec _ w'.
    unfold sweepSpec, bind. specialize (Hsafe spec w').
    destruct (syncHandler rm spec w') as [[[e|]|] w1]; done.
  - unfold synchronize, bind, call_ListReplicationControllers. by rewrite Hlist.
Qed.

End sweep.

(** The handler of the manager fails on both listed specifications. *)
Lemma synchronize_absorbs_errors_witness :
  (∀ h n, in_order h n ≡ₚ seq 0 n)
  ∧ (∀ spec w',
       fst (syncHandler (NewReplicationManager in_order never cluster_two_specs) spec w')
       ≠ Panic)
  ∧ (∀ list, ListReplicationControllers cluster_two_specs (trace world0) NewContext Everything
               = inl list → (len (RC_Items list) < two31)%Z)
  ∧ fst (synchronize in_order (NewReplicationManager in_order never cluster_two_specs) world0)
    = Ret tt.
Proof.
  assert (Hsafe : ∀ spec w',
            fst (syncHandler (NewReplicationManager in_order never cluster_two_specs) spec w')
            ≠ Panic) by (intros spec w'; discriminate).
  assert (Hfits : ∀ list,
            ListReplicationControllers cluster_two_specs (trace world0) NewContext Everything
              = inl list → (len (RC_Items list) < two31)%Z)
    by (intros list [= <-]; vm_compute; reflexivity).
  split; [exact in_order_fair|]. split; [exact Hsafe|]. split; [exact Hfits|].
  exact (synchronize_absorbs_errors in_order in_order_fair
           (NewReplicationManager in_order never cluster_two_specs) world0 Hsafe Hfits).
Defined.

(** Both reconciliations of that sweep fail and leave a line in the log. *)
Example synchronize_logs_each_failure :
  List.filter is_Glog
    (trace (snd (synchronize in_order
                   (NewReplicationManager in_order never cluster_two_specs) world0)))
  = [GlogErrorf "Error synchronizing: %#v" "pods unavailable";
     GlogErrorf "Error synchronizing: %#v" "pods unavailable"].
Proof. vm_compute. reflexivity. Qed.

(** ** The watch loop when the watch cannot be opened *)

Section watch_more.
Variable schedule : list Action → nat → list nat.
Variable rm : ReplicationManager.

Lemma step_watch_refused (m : Machine) (err : error) :
  pc m = Disconnected →
  WatchReplicationControllers (kubeClient rm) (trace (world m)) NewContext
    Everything Everything (resourceVersion m) = Some err →
  step schedule rm m =
    Some {| pc := Disconnected; resourceVersion := resourceVersion m;
            world := emit (GlogErrorf "Unexpected failure to watch: %v" err)
                       (emit (ReqWatchReplicationControllers NewContext Everything Everything
                                (resourceVersion m)) (world m));
            input := input m |}.
Proof.
  intros Hpc Hwatch. unfold step. rewrite Hpc.
  unfold call_WatchReplicationControllers. by rewrite Hwatch.
Qed.

(** As long as the cluster refuses the watch, the loop keeps asking from
    the same cursor: after any number of attempts it is still disconnected,
    the cursor and the pending deliveries are untouched, and it has made one
    watch request per attempt, each from that cursor. *)
Theorem watch_refused_retries_from_same_cursor (m : Machine) (n : nat) :
  pc m = Disconnected →
  (∀ h v, WatchReplicationControllers (kubeClient rm) h NewContext
            Everything Everything v ≠ None) →
  let m' := steps schedule rm n m in
  pc m' = Disconnected
  ∧ resourceVersion m' = resourceVersion m
  ∧ input m' = input m
  ∧ List.filter is_ReqWatch (issued (world m) (world m')) =
      replicate n (ReqWatchReplicationControllers NewContext Everything Everything
                     (resourceVersion m)).
Proof.
  intros Hpc Hrefused. cbn zeta.
  assert (Hgen : ∀ k m0, pc m0 = Disconnected →
            ∃ d, pc (steps schedule rm k m0) = Disconnected
                 ∧ resourceVersion (steps schedule rm k m0) = resourceVersion m0
                 ∧ input (steps schedule rm k m0) = input m0
                 ∧ trace (world (steps schedule rm k m0)) = trace (world m0) ++ d
                 ∧ List.filter is_ReqWatch d =
                     replicate k (ReqWatchReplicationControllers NewContext Everything
                                    Everything (resourceVersion m0))).
  { induction k as [|k IH]; intros m0 Hpc0.
    - exists []. simpl. by rewrite app_nil_r.
    - destruct (WatchReplicationControllers (kubeClient rm) (trace (world m0)) NewContext
                  Everything Everything (resourceVersion m0)) as [err|] eqn:Hwatch;
        [|by destruct (Hrefused _ _ Hwatch)].
      rewrite steps_S, (step_watch_refused m0 err Hpc0 Hwatch).
      set (m1 := Build_Machine _ _ _ _).
      destruct (IH m1 eq_refl) as (d & H1 & H2 & H3 & H4 & H5).
      exists (ReqWatchReplicationControllers NewContext Everything Everything
                (resourceVersion m0)
              :: GlogErrorf "Unexpected failure to watch: %v" err :: d).
      split; [done|]. split; [done|]. split; [done|]. split.
      + rewrite H4. subst m1. simpl. by rewrite <- !app_assoc.
      + simpl. by rewrite H5. }
  destruct (Hgen n m Hpc) as (d & H1 & H2 & H3 & H4 & H5).
  by rewrite (issued_app _ _ _ H4).
Qed.

End watch_more.

Lemma watch_refused_retries_from_same_cursor_witness :
  pc (Run world0 stream_5_then_3) = Disconnected
  ∧ (∀ h v, WatchReplicationControllers
              (kubeClient (NewReplicationManager in_order never (watchless [])))
              h NewContext Everything Everything v ≠ None)
  ∧ resourceVersion
      (steps in_order (NewReplicationManager in_order never (watchless [])) 3
         (Run world0 stream_5_then_3)) = 0%Z
  ∧ input (steps in_order (NewReplicationManager in_order never (watchless [])) 3
             (Run world0 stream_5_then_3)) = stream_5_then_3.
Proof.
  assert (Hrefused : ∀ h v, WatchReplicationControllers
            (kubeClient (NewReplicationManager in_order never (watchless [])))
            h NewContext Everything Everything v ≠ None) by (intros h v; discriminate).
  split; [reflexivity|]. split; [exact Hrefused|].
  destruct (watch_refused_retries_from_same_cursor in_order
              (NewReplicationManager in_order never (watchless [])) (Run world0 stream_5_then_3) 3
              eq_refl Hrefused) as (_ & Hrv & Hin & _).
  split; [exact Hrv|exact Hin].
Defined.

(** * Package [pod] *)

(** ** [PodStatusDecorator] and [PodStatusReset] *)

(** Decorating a pod never fails and never moves the pod: whatever the
    cache holds, the host stays the one the pod had, and so do its name,
    namespace, labels and specification.  The rest of the status is the
    cached one, or the phase "Unknown" with nothing else when the cache has
    no status for the pod. *)
Theorem PodStatusDecorator_keeps_host {C} (cache : pod.PodStatusGetter C) (c : C)
    (p : pod.Pod) :
  ∃ p',
    pod.PodStatusDecorator cache c (pod.PodPtr (Some p)) = Ret (pod.PodPtr (Some p'), None)
    ∧ pod.Host (pod.Status p') = pod.Host (pod.Status p)
    ∧ pod.Namespace p' = pod.Namespace p ∧ pod.Name p' = pod.Name p
    ∧ pod.Labels p' = pod.Labels p ∧ pod.Spec p' = pod.Spec p
    ∧ (∀ err, pod.GetPodStatus cache c (pod.Namespace p) (pod.Name p) = inr err →
         pod.Phase (pod.Status p') = pod.PodUnknown
         ∧ pod.PodIP (pod.Status p') = "" ∧ pod.Info (pod.Status p') = "")
    ∧ (∀ status, pod.GetPodStatus cache c (pod.Namespace p) (pod.Name p) = inl status →
         pod.Phase (pod.Status p') = pod.Phase status
         ∧ pod.PodIP (pod.Status p') = pod.PodIP status
         ∧ pod.Info (pod.Status p') = pod.Info status).
Proof.
  eexists. split; [reflexivity|]. cbn.
  repeat split; destruct (pod.GetPodStatus _ _ _ _); simplify_eq; done.
Qed.

(** Decorating is idempotent: on an object it has decorated, with the same
    cache, it returns the object unchanged. *)
Theorem PodStatusDecorator_idempotent {C} (cache : pod.PodStatusGetter C) (c : C)
    (obj obj' : pod.Object) (e : option pod.error) :
  pod.PodStatusDecorator cache c obj = Ret (obj', e) →
  pod.PodStatusDecorator cache c obj' = Ret (obj', e).
Proof.
  destruct obj as [[p|]|kind]; [|done|done]. intros [= <- <-]. cbn.
  by destruct (pod.GetPodStatus _ _ _ _).
Qed.

Lemma PodStatusDecorator_idempotent_witness :
  pod.PodStatusDecorator pod.mapCache pod.cache_with_nginx (pod.PodPtr (Some pod.nginx))
  = Ret (pod.PodPtr (Some (pod.withStatus pod.nginx
                             (pod.withHost pod.running_elsewhere "machine-1"))), None)
  ∧ pod.PodStatusDecorator pod.mapCache pod.cache_with_nginx
      (pod.PodPtr (Some (pod.withStatus pod.nginx
                           (pod.withHost pod.running_elsewhere "machine-1"))))
    = Ret (pod.PodPtr (Some (pod.withStatus pod.nginx
                               (pod.withHost pod.running_elsewhere "machine-1"))), None).
Proof.
  assert (Hfirst :
    pod.PodStatusDecorator pod.mapCache pod.cache_with_nginx (pod.PodPtr (Some pod.nginx))
    = Ret (pod.PodPtr (Some (pod.withStatus pod.nginx
                               (pod.withHost pod.running_elsewhere "machine-1"))), None))
    by (vm_compute; reflexivity).
  split; [exact Hfirst|].
  exact (PodStatusDecorator_idempotent pod.mapCache pod.cache_with_nginx _ _ _ Hfirst).
Defined.

(** After [PodStatusReset] for a pod, on a cache that forgets what it is
    told to clear, decorating that pod finds nothing: the phase is
    "Unknown" and the host is still the pod's own. *)
Theorem PodStatusReset_then_decorate_unknown {C} (cache : pod.PodStatusGetter C) (c : C)
    (p : pod.Pod) :
  (∀ c0 namespace name,
     ∃ err, pod.GetPodStatus cache (pod.ClearPodStatus cache c0 namespace name)
              namespace name = inr err) →
  ∃ c' p',
    pod.PodStatusReset cache c (pod.PodPtr (Some p)) = Ret (c', None)
    ∧ pod.PodStatusDecorator cache c' (pod.PodPtr (Some p)) = Ret (pod.PodPtr (Some p'), None)
    ∧ pod.Phase (pod.Status p') = pod.PodUnknown
    ∧ pod.Host (pod.Status p') = pod.Host (pod.Status p).
Proof.
  intros Hforget. eexists _, _. split; [reflexivity|]. cbn.
  destruct (Hforget c (pod.Namespace p) (pod.Name p)) as [err ->]. done.
Qed.

Lemma PodStatusReset_then_decorate_unknown_witness :
  (∀ c0 namespace name,
     ∃ err, pod.GetPodStatus pod.mapCache (pod.ClearPodStatus pod.mapCache c0 namespace name)
              namespace name = inr err)
  ∧ ∃ c' p',
      pod.PodStatusReset pod.mapCache pod.cache_with_nginx (pod.PodPtr (Some pod.nginx))
      = Ret (c', None)
      ∧ pod.PodStatusDecorator pod.mapCache c' (pod.PodPtr (Some pod.nginx))
        = Ret (pod.PodPtr (Some p'), None)
      ∧ pod.Phase (pod.Status p') = pod.PodUnknown.
Proof.
  assert (Hforget : ∀ c0 namespace name,
     ∃ err, pod.GetPodStatus pod.mapCache (pod.ClearPodStatus pod.mapCache c0 namespace name)
              namespace name = inr err).
  { intros c0 namespace name. eexists. cbn. rewrite lookup_delete_eq. reflexivity. }
  split; [exact Hforget|].
  destruct (PodStatusReset_then_decorate_unknown pod.mapCache pod.cache_with_nginx pod.nginx
              Hforget) as (c' & p' & Hreset & Hdec & Hphase & _).
  exists c', p'. split; [exact Hreset|]. split; [exact Hdec|exact Hphase].
Defined.

(** ** [MatchPod] *)

(** [MatchPod] reports an object that is not a pod as an error, never as a
    match; and whether a pod matches depends on its labels, name, phase and
    host only: two pods that agree on these match the same selectors. *)
Theorem MatchPod_reads_labels_name_phase_host (convertPhase : pod.PodPhase → string)
    (label field : pod.Selector) :
  (∀ kind, pod.MatchPod convertPhase label field (pod.OtherObject kind)
           = Ret (false, Some (pod.Errorf "not a pod")))
  ∧ (∀ p1 p2,
       pod.Labels p1 = pod.Labels p2 →
       pod.Name p1 = pod.Name p2 →
       pod.Phase (pod.Status p1) = pod.Phase (pod.Status p2) →
       pod.Host (pod.Status p1) = pod.Host (pod.Status p2) →
       pod.MatchPod convertPhase label field (pod.PodPtr (Some p1))
       = pod.MatchPod convertPhase label field (pod.PodPtr (Some p2))).
Proof.
  split; [done|]. intros p1 p2 Hl Hn Hp Hh.
  unfold pod.MatchPod, pod.PodToSelectableFields. by rewrite Hl, Hn, Hp, Hh.
Qed.

Lemma MatchPod_reads_labels_name_phase_host_witness :
  pod.Labels pod.nginx = pod.Labels (pod.withStatus pod.nginx
                                       (pod.withHost pod.running_elsewhere "machine-1"))
  ∧ pod.MatchPod pod.older {| pod.Matches := λ _, true |}
      {| pod.Matches := λ fields, bool_decide (fields !! "Status.Host" = Some "machine-1") |}
      (pod.PodPtr (Some pod.nginx))
    = pod.MatchPod pod.older {| pod.Matches := λ _, true |}
        {| pod.Matches := λ fields, bool_decide (fields !! "Status.Host" = Some "machine-1") |}
        (pod.PodPtr (Some
           {| pod.Namespace := "other"; pod.Name := "nginx"; pod.Labels := {["app" := "web"]};
              pod.Spec := {| pod.Containers := [] |};
              pod.Status := {| pod.Phase := "Pending"; pod.Host := "machine-1";
                               pod.PodIP := "10.9.9.9"; pod.Info := "x" |} |})).
Proof.
  split; [reflexivity|].
  exact (proj2 (MatchPod_reads_labels_name_phase_host pod.older _ _) pod.nginx _
           eq_refl eq_refl eq_refl eq_refl).
Defined.

Lemma PodStatusDecorator_keeps_host_witness :
  pod.GetPodStatus pod.mapCache pod.cache_with_nginx "default" "nginx"
  = inl pod.running_elsewhere
  ∧ ∃ p', pod.PodStatusDecorator pod.mapCache pod.cache_with_nginx (pod.PodPtr (Some pod.nginx))
          = Ret (pod.PodPtr (Some p'), None)
          ∧ pod.Host (pod.Status p') = "machine-1"
          ∧ pod.Phase (pod.Status p') = "Running".
Proof.
  assert (Hget : pod.GetPodStatus pod.mapCache pod.cache_with_nginx
                   (pod.Namespace pod.nginx) (pod.Name pod.nginx)
                 = inl pod.running_elsewhere) by (vm_compute; reflexivity).
  split; [exact Hget|].
  destruct (PodStatusDecorator_keeps_host pod.mapCache pod.cache_with_nginx pod.nginx)
    as (p' & Hrun & Hhost & _ & _ & _ & _ & _ & Hcached).
  exists p'. split; [exact Hrun|]. split; [exact Hhost|].
  exact (proj1 (Hcached pod.running_elsewhere Hget)).
Defined.

(** ** [ResourceLocation] *)

Lemma Split_nonempty (s : string) (sep : Ascii.ascii) : pod.Split s sep ≠ [].
Proof.
  destruct s as [|c s]; [done|]. simpl.
  destruct (Ascii.eqb c sep); [done|]. by destruct (pod.Split s sep).
Qed.

Lemma Split_length (s : string) (sep : Ascii.ascii) :
  length (pod.Split s sep) = S (pod.count_char sep s).
Proof.
  induction s as [|c s IH]; [done|]. simpl.
  destruct (Ascii.eqb c sep); simpl; [by rewrite IH|].
  destruct (pod.Split s sep) eqn:E; simpl in *; [done|lia].
Qed.

Lemma Split_no_sep (s : string) (sep : Ascii.ascii) :
  pod.count_char sep s = 0 → pod.Split s sep = [s].
Proof.
  induction s as [|c s IH]; [done|]. simpl.
  destruct (Ascii.eqb c sep); [done|]. intros Hs. by rewrite IH.
Qed.

Lemma Split_at_sep (a b : string) (sep : Ascii.ascii) :
  pod.count_char sep a = 0 →
  pod.Split (a +:+ String sep b) sep = a :: pod.Split b sep.
Proof.
  induction a as [|c a IH]; simpl.
  - intros _. by rewrite Ascii.eqb_refl.
  - destruct (Ascii.eqb c sep); [done|]. intros Ha. by rewrite IH.
Qed.

Lemma pretty_N_go_nonempty (x : N) (s : string) : s ≠ "" → pretty_N_go x s ≠ "".
Proof.
  revert s. induction (N.lt_wf_0 x) as [x _ IH]; intros s Hs.
  assert (x = 0 ∨ 0 < x)%N as [->|Hx] by lia.
  - by rewrite pretty_N_go_0.
  - rewrite pretty_N_go_step by done. apply IH; [by apply N.div_lt|done].
Qed.

(** A port printed with [%d] is never the empty string. *)
Lemma pretty_Z_nonempty (z : Z) : pretty z ≠ "".
Proof.
  destruct z as [|x|x]; [done| |done].
  unfold pretty, pretty_Z, pretty, pretty_positive, pretty, pretty_N.
  case_decide; [done|]. rewrite pretty_N_go_step by lia.
  by apply pretty_N_go_nonempty.
Qed.

(** The loop over the containers stops at the first container that has a
    port and takes that container's first port. *)
Lemma firstContainerPort_found (before after : list pod.Container)
    (container : pod.Container) (p : pod.Port) (more : list pod.Port) :
  Forall (λ c, pod.Ports c = []) before →
  pod.Ports container = p :: more →
  pod.firstContainerPort (before ++ container :: after) = pretty (pod.ContainerPort p).
Proof.
  intros Hbefore Hports. induction Hbefore as [|c before Hc _ IH]; simpl.
  - by rewrite Hports.
  - by rewrite Hc.
Qed.

Lemma firstContainerPort_none (containers : list pod.Container) :
  Forall (λ c, pod.Ports c = []) containers → pod.firstContainerPort containers = "".
Proof. induction 1 as [|c containers Hc _ IH]; simpl; [done|by rewrite Hc]. Qed.

(** An id with more than one colon is refused as a bad request, and the
    getter is not consulted: the answer is the same for every getter. *)
Theorem ResourceLocation_rejects_extra_colons (getter : pod.ResourceGetter)
    (ctx : Context) (id : string) :
  2 ≤ pod.count_char pod.colon id →
  pod.ResourceLocation getter ctx id
  = Ret ("", Some (pod.NewBadRequest "invalid pod request %q" id)).
Proof.
  intros Hcolons. unfold pod.ResourceLocation. rewrite Split_length.
  destruct (Nat.ltb_spec 2 (S (pod.count_char pod.colon id))); [done|lia].
Qed.

Lemma ResourceLocation_rejects_extra_colons_witness :
  2 ≤ pod.count_char pod.colon "nginx:80:tcp"
  ∧ pod.ResourceLocation pod.nginx_getter NewContext "nginx:80:tcp"
    = Ret ("", Some (pod.NewBadRequest "invalid pod request %q" "nginx:80:tcp")).
Proof.
  assert (Hc : 2 ≤ pod.count_char pod.colon "nginx:80:tcp") by (vm_compute; lia).
  split; [exact Hc|].
  exact (ResourceLocation_rejects_extra_colons pod.nginx_getter NewContext _ Hc).
Defined.

(** "name:port": the location is the pod's IP, a colon and the port as it
    was given, whether or not it is a number and whatever ports the
    containers declare. *)
Theorem ResourceLocation_explicit_port (getter : pod.ResourceGetter) (ctx : Context)
    (name port : string) (p : pod.Pod) :
  pod.count_char pod.colon name = 0 →
  pod.count_char pod.colon port = 0 →
  port ≠ "" →
  pod.Get getter ctx name = inl (pod.PodPtr (Some p)) →
  pod.ResourceLocation getter ctx (name +:+ ":" +:+ port)
  = Ret (pod.PodIP (pod.Status p) +:+ ":" +:+ port, None).
Proof.
  intros Hname Hport Hne Hget. unfold pod.ResourceLocation.
  change (name +:+ ":" +:+ port) with (name +:+ String pod.colon port).
  rewrite (Split_at_sep name port pod.colon Hname), (Split_no_sep port pod.colon Hport).
  cbn. rewrite Hget. destruct (decide (port = "")) as [|_]; [done|].
  by rewrite decide_False.
Qed.

Lemma ResourceLocation_explicit_port_witness :
  pod.count_char pod.colon "nginx" = 0
  ∧ pod.count_char pod.colon "http" = 0
  ∧ "http" ≠ ""
  ∧ pod.Get pod.nginx_getter NewContext "nginx" = inl (pod.PodPtr (Some pod.nginx))
  ∧ pod.ResourceLocation pod.nginx_getter NewContext "nginx:http"
    = Ret ("10.0.0.5:http", None).
Proof.
  assert (Hne : "http" ≠ "") by discriminate.
  split; [reflexivity|]. split; [reflexivity|]. split; [exact Hne|]. split; [reflexivity|].
  exact (ResourceLocation_explicit_port pod.nginx_getter NewContext "nginx" "http" pod.nginx
           eq_refl eq_refl Hne eq_refl).
Defined.

(** "name" and "name:" are the same request.  The port is then the first
    port of the first container that declares one, in decimal; without any
    declared port the location is the bare IP. *)
Theorem ResourceLocation_default_port (getter : pod.ResourceGetter) (ctx : Context)
    (name : string) (p : pod.Pod) :
  pod.count_char pod.colon name = 0 →
  pod.Get getter ctx name = inl (pod.PodPtr (Some p)) →
  pod.ResourceLocation getter ctx (name +:+ ":") = pod.ResourceLocation getter ctx name
  ∧ (∀ before container after port more,
       pod.Containers (pod.Spec p) = before ++ container :: after →
       Forall (λ c, pod.Ports c = []) before →
       pod.Ports container = port :: more →
       pod.ResourceLocation getter ctx name
       = Ret (pod.PodIP (pod.Status p) +:+ ":" +:+ pretty (pod.ContainerPort port), None))
  ∧ (Forall (λ c, pod.Ports c = []) (pod.Containers (pod.Spec p)) →
     pod.ResourceLocation getter ctx name = Ret (pod.PodIP (pod.Status p), None)).
Proof.
  intros Hname Hget.
  assert (Hbare : pod.ResourceLocation getter ctx name =
            Ret (let port := pod.firstContainerPort (pod.Containers (pod.Spec p)) in
                 if decide (port = "") then pod.PodIP (pod.Status p)
                 else pod.PodIP (pod.Status p) +:+ ":" +:+ port, None)).
  { unfold pod.ResourceLocation. rewrite (Split_no_sep name pod.colon Hname).
    cbn. by rewrite Hget. }
  split; [|split].
  - rewrite Hbare. unfold pod.ResourceLocation.
    change (name +:+ ":") with (name +:+ String pod.colon "").
    rewrite (Split_at_sep name "" pod.colon Hname). cbn. by rewrite Hget.
  - intros before container after port more Hcs Hbefore Hports. rewrite Hbare, Hcs.
    rewrite (firstContainerPort_found before after container port more Hbefore Hports).
    cbn zeta. rewrite decide_False; [done|apply pretty_Z_nonempty].
  - intros Hnone. rewrite Hbare, (firstContainerPort_none _ Hnone). done.
Qed.

Lemma ResourceLocation_default_port_witness :
  pod.count_char pod.colon "nginx" = 0
  ∧ pod.Get pod.nginx_getter NewContext "nginx" = inl (pod.PodPtr (Some pod.nginx))
  ∧ pod.ResourceLocation pod.nginx_getter NewContext "nginx:"
    = pod.ResourceLocation pod.nginx_getter NewContext "nginx"
  ∧ pod.ResourceLocation pod.nginx_getter NewContext "nginx" = Ret ("10.0.0.5:8080", None).
Proof.
  destruct (ResourceLocation_default_port pod.nginx_getter NewContext "nginx" pod.nginx
              eq_refl eq_refl) as (Hsame & Hfound & _).
  assert (Hbefore : Forall (λ c, pod.Ports c = []) [ {| pod.Ports := [] |} ])
    by (constructor; [reflexivity|constructor]).
  split; [reflexivity|]. split; [reflexivity|]. split; [exact Hsame|].
  exact (Hfound [ {| pod.Ports := [] |} ]
           {| pod.Ports := [ {| pod.ContainerPort := 8080 |}; {| pod.ContainerPort := 9090 |} ] |}
           [] {| pod.ContainerPort := 8080 |} [ {| pod.ContainerPort := 9090 |} ]
           eq_refl Hbefore eq_refl).
Defined.

(** Without a pod there is no location: for "name" and for "name:port"
    alike, the getter is asked for the name, an error it returns is returned
    as it is, and a nil pod gives the empty location without an error. *)
Theorem ResourceLocation_without_pod (getter : pod.ResourceGetter) (ctx : Context)
    (id name port : string) :
  pod.count_char pod.colon name = 0 →
  pod.count_char pod.colon port = 0 →
  id = name ∨ id = name +:+ ":" +:+ port →
  (∀ err, pod.Get getter ctx name = inr err →
          pod.ResourceLocation getter ctx id = Ret ("", Some err))
  ∧ (pod.Get getter ctx name = inl (pod.PodPtr None) →
     pod.ResourceLocation getter ctx id = Ret ("", None))
  ∧ (∀ kind, pod.Get getter ctx name = inl (pod.OtherObject kind) →
             pod.ResourceLocation getter ctx id = Panic).
Proof.
  intros Hname Hport Hid. unfold pod.ResourceLocation.
  assert (Hsplit : pod.Split id pod.colon = [name] ∨ pod.Split id pod.colon = [name; port]).
  { destruct Hid as [->| ->]; [left; by apply Split_no_sep|right].
    change (name +:+ ":" +:+ port) with (name +:+ String pod.colon port).
    by rewrite (Split_at_sep name port pod.colon Hname), (Split_no_sep port pod.colon Hport). }
  destruct Hsplit as [-> | ->]; cbn; repeat split.
  all: try (by intros err ->); try (by intros ->).
Qed.

Lemma ResourceLocation_without_pod_witness :
  pod.count_char pod.colon "redis" = 0
  ∧ pod.count_char pod.colon "6379" = 0
  ∧ pod.Get pod.nginx_getter NewContext "redis" = inr (pod.StorageError "not found")
  ∧ pod.ResourceLocation pod.nginx_getter NewContext "redis:6379"
    = Ret ("", Some (pod.StorageError "not found")).
Proof.
  split; [reflexivity|]. split; [reflexivity|]. split; [reflexivity|].
  exact (proj1 (ResourceLocation_without_pod pod.nginx_getter NewContext "redis:6379"
                  "redis" "6379" eq_refl eq_refl (or_intror eq_refl))
           (pod.StorageError "not found") eq_refl).
Defined.

(** * Package [runtime]: the client negotiator *)

Section negotiator.
Variable Codec Framer : Type.
Variable lookup : list (runtime.SerializerInfo Codec Framer) → string
                  → option (runtime.SerializerInfo Codec Framer).

(** Encoder and decoder are negotiated alike: for every negotiator and
    content type they fail together, with the same message, and neither
    ever indexes an empty list of media types. *)
Theorem Encoder_and_Decoder_fail_together (n : runtime.clientNegotiator Codec Framer)
    (contentType : string) :
  (∀ message, runtime.Encoder lookup n contentType = Ret (inr message)
              ↔ runtime.Decoder lookup n contentType = Ret (inr message))
  ∧ runtime.Encoder lookup n contentType ≠ Panic
  ∧ runtime.Decoder lookup n contentType ≠ Panic.
Proof.
  unfold runtime.Encoder, runtime.Decoder, runtime.noDefault.
  destruct (lookup _ contentType) as [info|]; [by repeat split|].
  destruct (runtime.SupportedMediaTypes (runtime.serializer n)) as [|first rest];
    destruct (String.length contentType =? 0); by repeat split.
Qed.

(** A stream decoder, when there is one, decodes with the decoder that
    [Decoder] returns for the same content type; and a content type for
    which [Decoder] fails has no stream decoder either. *)
Theorem StreamDecoder_agrees_with_Decoder (n : runtime.clientNegotiator Codec Framer)
    (contentType : string) :
  (∀ d s f, runtime.StreamDecoder lookup n contentType = Ret (inl (d, s, f)) →
            runtime.Decoder lookup n contentType = Ret (inl d))
  ∧ (∀ message, runtime.Decoder lookup n contentType = Ret (inr message) →
       runtime.StreamDecoder lookup n contentType
       = Ret (inr ("no stream serializers registered for " +:+ contentType))).
Proof.
  unfold runtime.StreamDecoder, runtime.Decoder, runtime.streamOf.
  destruct (lookup _ contentType) as [info|].
  - split; [|done]. intros d s f. by destruct (runtime.StreamSerializer info); intros [= <- _ _].
  - destruct (runtime.noDefault _ _); [by split|].
    destruct (runtime.SupportedMediaTypes (runtime.serializer n)) as [|first rest]; [by split|].
    split; [|done]. intros d s f.
    by destruct (runtime.StreamSerializer first); intros [= <- _ _].
Qed.

(** A media type that is registered without a stream serializer can be
    decoded but not streamed, and the error names the media type that was
    chosen. *)
Theorem StreamDecoder_needs_stream_serializer (n : runtime.clientNegotiator Codec Framer)
    (contentType : string) (info : runtime.SerializerInfo Codec Framer) :
  lookup (runtime.SupportedMediaTypes (runtime.serializer n)) contentType = Some info →
  runtime.StreamSerializer info = None →
  runtime.StreamDecoder lookup n contentType
  = Ret (inr ("no stream serializers registered for " +:+ runtime.MediaType info))
  ∧ runtime.Decoder lookup n contentType
    = Ret (inl (runtime.DecoderToVersion (runtime.serializer n) (runtime.Serializer info)
                  (runtime.decode n))).
Proof.
  intros Hfound Hnone.
  unfold runtime.StreamDecoder, runtime.Decoder, runtime.streamOf. by rewrite Hfound, Hnone.
Qed.

(** A content type the lookup does not know: the empty content type falls
    back to the first registered media type, any other content type is an
    error that names it, and so is every content type when nothing is
    registered. *)
Theorem Encoder_unknown_content_type (n : runtime.clientNegotiator Codec Framer)
    (contentType : string) :
  lookup (runtime.SupportedMediaTypes (runtime.serializer n)) contentType = None →
  (∀ first rest,
     contentType = "" →
     runtime.SupportedMediaTypes (runtime.serializer n) = first :: rest →
     runtime.Encoder lookup n contentType
     = Ret (inl (runtime.EncoderForVersion (runtime.serializer n) (runtime.Serializer first)
                   (runtime.encode n))))
  ∧ (contentType ≠ "" ∨ runtime.SupportedMediaTypes (runtime.serializer n) = [] →
     runtime.Encoder lookup n contentType
     = Ret (inr ("no serializers registered for " +:+ contentType))).
Proof.
  intros Hmiss. unfold runtime.Encoder, runtime.noDefault. rewrite Hmiss. split.
  - by intros first rest -> ->.
  - intros [Hne| ->]; [|by destruct (String.length contentType =? 0)].
    destruct contentType; [done|]. done.
Qed.

(** The simple negotiator hands out the serializer it was built from,
    untouched: whatever the content type and the group and version, an
    encoder or a decoder it returns is that serializer itself, and for the
    empty content type it always returns it. *)
Theorem simple_negotiator_returns_its_serializer
    (info : runtime.SerializerInfo Codec Framer) (gv : runtime.GroupVersion)
    (contentType : string) :
  (∀ types ct found, lookup types ct = Some found → found ∈ types) →
  (∀ c, runtime.Encoder lookup (runtime.NewSimpleClientNegotiator info gv) contentType
        = Ret (inl c) → c = runtime.Serializer info)
  ∧ (∀ c, runtime.Decoder lookup (runtime.NewSimpleClientNegotiator info gv) contentType
          = Ret (inl c) → c = runtime.Serializer info)
  ∧ runtime.Encoder lookup (runtime.NewSimpleClientNegotiator info gv) ""
    = Ret (inl (runtime.Serializer info))
  ∧ runtime.Decoder lookup (runtime.NewSimpleClientNegotiator info gv) ""
    = Ret (inl (runtime.Serializer info)).
Proof.
  intros Hsound.
  assert (Hinfo : ∀ ct found, lookup [info] ct = Some found → found = info).
  { intros ct found Hfound. apply Hsound in Hfound. by apply list_elem_of_singleton in Hfound. }
  unfold runtime.Encoder, runtime.Decoder, runtime.noDefault. cbn.
  repeat split.
  - intros c. destruct (lookup [info] contentType) as [found|] eqn:Hfound.
    + rewrite (Hinfo _ _ Hfound). by intros [= <-].
    + destruct (negb _ || false); [done|]. by intros [= <-].
  - intros c. destruct (lookup [info] contentType) as [found|] eqn:Hfound.
    + rewrite (Hinfo _ _ Hfound). by intros [= <-].
    + destruct (negb _ || false); [done|]. by intros [= <-].
  - destruct (lookup [info] "") as [found|] eqn:Hfound; [|done].
    by rewrite (Hinfo _ _ Hfound).
  - destruct (lookup [info] "") as [found|] eqn:Hfound; [|done].
    by rewrite (Hinfo _ _ Hfound).
Qed.

(** What the decoder converts to never depends on the version asked for:
    a client negotiator passes no target at all, and an internal client
    negotiator passes the internal version of the group and of the legacy
    group, so that two versions of one group decode alike. *)
Theorem Decoder_ignores_requested_version (internal : string)
    (s : runtime.NegotiatedSerializer Codec Framer) (gv1 gv2 : runtime.GroupVersion)
    (contentType : string) :
  runtime.Decoder lookup (runtime.NewClientNegotiator s gv1) contentType
  = runtime.Decoder lookup (runtime.NewClientNegotiator s gv2) contentType
  ∧ (runtime.Group gv1 = runtime.Group gv2 →
     runtime.Decoder lookup (runtime.NewInternalClientNegotiator internal s gv1) contentType
     = runtime.Decoder lookup (runtime.NewInternalClientNegotiator internal s gv2) contentType).
Proof.
  split; [done|]. intros Hgroup.
  unfold runtime.Decoder, runtime.NewInternalClientNegotiator. cbn. by rewrite Hgroup.
Qed.

End negotiator.

Lemma byExactType_sound :
  ∀ types ct found, runtime.byExactType types ct = Some found → found ∈ types.
Proof.
  intros types ct found Hfound. apply list_elem_of_In.
  exact (proj1 (List.find_some _ _ Hfound)).
Defined.

Lemma Encoder_and_Decoder_fail_together_witness :
  runtime.Encoder runtime.byExactType
    (runtime.NewClientNegotiator runtime.codecs runtime.apps_v1) "text/plain"
  = Ret (inr "no serializers registered for text/plain")
  ∧ runtime.Decoder runtime.byExactType
      (runtime.NewClientNegotiator runtime.codecs runtime.apps_v1) "text/plain"
    = Ret (inr "no serializers registered for text/plain").
Proof.
  assert (Henc : runtime.Encoder runtime.byExactType
            (runtime.NewClientNegotiator runtime.codecs runtime.apps_v1) "text/plain"
          = Ret (inr "no serializers registered for text/plain")) by (vm_compute; reflexivity).
  split; [exact Henc|].
  exact (proj1 (proj1 (Encoder_and_Decoder_fail_together string string runtime.byExactType
                         (runtime.NewClientNegotiator runtime.codecs runtime.apps_v1)
                         "text/plain") _) Henc).
Defined.

Lemma StreamDecoder_agrees_with_Decoder_witness :
  runtime.StreamDecoder runtime.byExactType
    (runtime.NewClientNegotiator runtime.codecs runtime.apps_v1) "application/json"
  = Ret (inl ("converting(json)", "json-stream", "newline"))
  ∧ runtime.Decoder runtime.byExactType
      (runtime.NewClientNegotiator runtime.codecs runtime.apps_v1) "application/json"
    = Ret (inl "converting(json)").
Proof.
  assert (Hstream : runtime.StreamDecoder runtime.byExactType
            (runtime.NewClientNegotiator runtime.codecs runtime.apps_v1) "application/json"
          = Ret (inl ("converting(json)", "json-stream", "newline")))
    by (vm_compute; reflexivity).
  split; [exact Hstream|].
  exact (proj1 (StreamDecoder_agrees_with_Decoder string string runtime.byExactType
                  (runtime.NewClientNegotiator runtime.codecs runtime.apps_v1)
                  "application/json") _ _ _ Hstream).
Defined.

Lemma StreamDecoder_needs_stream_serializer_witness :
  runtime.byExactType (runtime.SupportedMediaTypes runtime.codecs) "application/yaml"
  = Some runtime.yaml
  ∧ runtime.StreamSerializer runtime.yaml = None
  ∧ runtime.StreamDecoder runtime.byExactType
      (runtime.NewClientNegotiator runtime.codecs runtime.apps_v1) "application/yaml"
    = Ret (inr "no stream serializers registered for application/yaml").
Proof.
  assert (Hfound : runtime.byExactType
            (runtime.SupportedMediaTypes
               (runtime.serializer (runtime.NewClientNegotiator runtime.codecs runtime.apps_v1)))
            "application/yaml" = Some runtime.yaml) by (vm_compute; reflexivity).
  split; [exact Hfound|]. split; [reflexivity|].
  exact (proj1 (StreamDecoder_needs_stream_serializer string string runtime.byExactType
                  (runtime.NewClientNegotiator runtime.codecs runtime.apps_v1)
                  "application/yaml" runtime.yaml Hfound eq_refl)).
Defined.

Lemma Encoder_unknown_content_type_witness :
  runtime.byExactType (runtime.SupportedMediaTypes runtime.codecs) "" = None
  ∧ runtime.Encoder runtime.byExactType
      (runtime.NewClientNegotiator runtime.codecs runtime.apps_v1) ""
    = Ret (inl "versioning(yaml)").
Proof.
  assert (Hmiss : runtime.byExactType
            (runtime.SupportedMediaTypes
               (runtime.serializer (runtime.NewClientNegotiator runtime.codecs runtime.apps_v1)))
            "" = None) by (vm_compute; reflexivity).
  split; [exact Hmiss|].
  exact (proj1 (Encoder_unknown_content_type string string runtime.byExactType
                  (runtime.NewClientNegotiator runtime.codecs runtime.apps_v1) "" Hmiss)
           runtime.yaml [runtime.json] eq_refl eq_refl).
Defined.

Lemma simple_negotiator_returns_its_serializer_witness :
  (∀ types ct found, runtime.byExactType types ct = Some found → found ∈ types)
  ∧ runtime.Encoder runtime.byExactType
      (runtime.NewSimpleClientNegotiator runtime.json runtime.apps_v1) ""
    = Ret (inl "json")
  ∧ ∀ c, runtime.Decoder runtime.byExactType
           (runtime.NewSimpleClientNegotiator runtime.json runtime.apps_v1) "application/json"
         = Ret (inl c) → c = "json".
Proof.
  destruct (simple_negotiator_returns_its_serializer string string runtime.byExactType
              runtime.json runtime.apps_v1 "application/json" byExactType_sound)
    as (_ & Hdec & Henc & _).
  split; [exact byExactType_sound|]. split; [exact Henc|exact Hdec].
Defined.

Lemma Decoder_ignores_requested_version_witness :
  runtime.Group runtime.apps_v1 = runtime.Group runtime.apps_v1beta1
  ∧ runtime.Decoder runtime.byExactType
      (runtime.NewInternalClientNegotiator "__internal" runtime.codecs runtime.apps_v1)
      "application/json"
    = runtime.Decoder runtime.byExactType
        (runtime.NewInternalClientNegotiator "__internal" runtime.codecs runtime.apps_v1beta1)
        "application/json".
Proof.
  split; [reflexivity|].
  exact (proj2 (Decoder_ignores_requested_version string string runtime.byExactType
                  "__internal" runtime.codecs runtime.apps_v1 runtime.apps_v1beta1
                  "application/json") eq_refl).
Defined.

(** * One snapshot per reconciliation *)

Lemma quiet_ret (f : Action → bool) {A} (a : A) : quiet f (ret a).
Proof. intros w. exists []. by rewrite app_nil_r. Qed.

Lemma quiet_panic (f : Action → bool) {A} : quiet f (@panic A).
Proof. intros w. exists []. by rewrite app_nil_r. Qed.

Lemma quiet_bind (f : Action → bool) {A B} (m : M A) (k : A → M B) :
  quiet f m → (∀ a, quiet f (k a)) → quiet f (bind m k).
Proof.
  intros Hm Hk w. unfold bind. destruct (Hm w) as (d1 & Ht1 & Hf1).
  destruct (m w) as [[a|] w1]; simpl in *; [|by exists d1].
  destruct (Hk a w1) as (d2 & Ht2 & Hf2). exists (d1 ++ d2).
  by rewrite Ht2, Ht1, <- app_assoc, List.filter_app, Hf1, Hf2.
Qed.

Lemma quiet_tell (f : Action → bool) (a : Action) : f a = false → quiet f (tell a).
Proof. intros Hf w. exists [a]. simpl. by rewrite Hf. Qed.

Lemma quiet_run_goroutines (f : Action → bool) (body : nat → M unit) (order : list nat) :
  (∀ ix, quiet f (body ix)) → quiet f (run_goroutines body order).
Proof.
  intros Hbody. induction order as [|ix order IH]; [apply quiet_ret|].
  apply quiet_bind; [apply Hbody|]. intros _. apply IH.
Qed.

Lemma quiet_createReplica (c : Interface) (ctx : Context) (spec : ReplicationController) :
  quiet is_ReqListPods (invoke_createReplica (RealPodControl c) ctx spec).
Proof.
  intros w. rewrite invoke_createReplica_run. eexists. split; [reflexivity|].
  simpl. by destruct (CreatePod c _ _ _ _).
Qed.

Lemma quiet_deletePod (c : Interface) (ctx : Context) (podID : string) :
  quiet is_ReqListPods (invoke_deletePod (RealPodControl c) ctx podID).
Proof.
  intros w. exists [CallDeletePod ctx podID; ReqDeletePod ctx podID]. split; [|done].
  simpl. by rewrite <- app_assoc.
Qed.

Lemma quiet_fan_out_wait (f : Action → bool) (schedule : list Action → nat → list nat)
    (delta : Z) (body : nat → M unit) :
  (∀ ix, quiet f (body ix)) → quiet f (fan_out_wait schedule delta body).
Proof.
  intros Hbody w. destruct (fan_out_wait_runs schedule delta body w) as [order ->].
  apply (quiet_run_goroutines f body order Hbody w).
Qed.

Lemma quiet_createGoroutine (racy : list Action → bool) (c : Interface) (ctx : Context)
    (spec : ReplicationController) (goroutines ix : nat) :
  quiet is_ReqListPods (createGoroutine racy (RealPodControl c) ctx spec goroutines ix).
Proof.
  unfold createGoroutine. apply quiet_bind; [|intros _; apply quiet_createReplica].
  intros w. exists []. rewrite app_nil_r. unfold labelMapRace. by case_match.
Qed.

Lemma sync_trace_lists_once (schedule : list Action → nat → list nat)
    (racy : list Action → bool)
    (c : Interface) (spec : ReplicationController) (w : World) :
  ∃ d,
    trace (snd (syncReplicationController schedule racy
                  (NewReplicationManager schedule racy c) spec w))
    = trace w ++ listingOf spec :: d
    ∧ List.filter is_ReqListPods d = [].
Proof.
  assert (Hrest : ∀ r : PodList + error, quiet is_ReqListPods
    (match r with
     | inr err => ret (Some err)
     | inl podList =>
         let filteredList := filterActivePods (Pod_Items podList) in
         let diff := replicaDiff filteredList spec in
         if (diff <? 0)%Z then
           let diff := int_mul diff (-1) in
           fan_out_wait schedule diff
             (createGoroutine racy (RealPodControl c) (specContext spec) spec
                (Z.to_nat diff)) ;;;
           ret None
         else if (0 <? diff)%Z then
           fan_out_wait schedule diff
             (deleteGoroutine (RealPodControl c) (specContext spec) filteredList) ;;;
           ret None
         else ret None
     end)).
  { intros [podList|err]; [|apply quiet_ret]. cbn zeta. repeat case_match.
    - apply quiet_bind; [|intros; apply quiet_ret].
      apply quiet_fan_out_wait. intros ix. apply quiet_createGoroutine.
    - apply quiet_bind; [|intros; apply quiet_ret].
      apply quiet_fan_out_wait. intros ix. unfold deleteGoroutine.
      destruct (_ !! ix); [|apply quiet_panic].
      apply quiet_bind; [apply quiet_deletePod|]. intros; apply quiet_ret.
    - apply quiet_ret. }
  unfold syncReplicationController, bind at 1, call_ListPods.
  cbn [NewReplicationManager kubeClient podControl].
  fold (specContext spec) (specSelector spec).
  destruct (Hrest (ListPods c (trace w) (specContext spec) (specSelector spec))
              (emit (listingOf spec) w)) as (d & Htrace & Hquiet).
  exists d. split; [|exact Hquiet].
  unfold listingOf in *. rewrite Htrace. simpl. by rewrite <- app_assoc.
Qed.

(** A reconciliation reads the cluster exactly once: its first action is
    the listing of the pods of its specification, and nothing it does
    afterwards is another listing, whatever the outcome. *)
Theorem reconcile_lists_pods_once (schedule : list Action → nat → list nat)
    (racy : list Action → bool)
    (c : Interface) (spec : ReplicationController) (w : World) :
  ∃ d,
    issued w (snd (syncReplicationController schedule racy
                     (NewReplicationManager schedule racy c) spec w))
    = ReqListPods (specContext spec) (specSelector spec) :: d
    ∧ List.filter is_ReqListPods d = [].
Proof.
  destruct (sync_trace_lists_once schedule racy c spec w) as (d & Htrace & Hquiet).
  exists d. split; [|exact Hquiet]. by apply issued_app.
Qed.

(** * The watch loop and the manager's own handler *)

Section watch_reconciles.
Variable schedule : list Action → nat → list nat.
Variable racy : list Action → bool.
Variable c : Interface.

(** C6: when the watch loop of the manager that [NewReplicationManager]
    builds receives an event that carries a replication controller, the
    world it is back at the [select] with (or has crashed with) is the world
    that [syncReplicationController], run on the object of the event itself,
    leaves: it begins with the listing of the pods that object selects, and
    the loop is back at the [select] exactly when that reconciliation
    returns.  The kind of the event is not read: the same machine is reached
    for every kind, so a deletion is reconciled against the replica count
    the deleted object still carries. *)
Theorem watch_syncs_embedded_spec (m : Machine) (kind : EventType)
    (rc : ReplicationController) (rest : list Select) :
  let manager := NewReplicationManager schedule racy c in
  let reconciled := syncReplicationController schedule racy manager rc (world m) in
  let m2 := steps schedule manager 2 m in
  pc m = Selecting →
  input m = SelRecv (mkEvent kind rc) :: rest →
  world m2 = snd reconciled
  ∧ (∃ d, issued (world m) (world m2)
          = ReqListPods (specContext rc) (specSelector rc) :: d)
  ∧ pc m2 = match fst reconciled with Ret _ => Selecting | Panic => Crashed end
  ∧ input m2 = rest
  ∧ ∀ kind', steps schedule manager 2
               (selecting (resourceVersion m) (world m) (SelRecv (mkEvent kind' rc) :: rest))
             = m2.
Proof.
  intros manager reconciled m2 Hpc Hin.
  assert (Hrun : ∀ m0 kind0, pc m0 = Selecting →
            input m0 = SelRecv (mkEvent kind0 rc) :: rest →
            steps schedule manager 2 m0 =
              resume {| pc := Syncing rc;
                        resourceVersion := uint64_add (RC_ResourceVersion rc) 1;
                        world := world m0; input := rest |}
                (syncReplicationController schedule racy manager rc (world m0)) Selecting).
  { intros m0 kind0 Hpc0 Hin0.
    rewrite steps_S, (step_recv_controller schedule manager m0 _ rc rest Hpc0 Hin0 eq_refl).
    rewrite steps_S. unfold step at 1. cbn [pc world]. reflexivity. }
  assert (Hm2 : m2 = resume {| pc := Syncing rc;
                               resourceVersion := uint64_add (RC_ResourceVersion rc) 1;
                               world := world m; input := rest |} reconciled Selecting)
    by (by apply (Hrun m kind)).
  assert (Hworld : world m2 = snd reconciled).
  { rewrite Hm2. by destruct reconciled as [[?|] ?]. }
  split; [exact Hworld|]. split.
  { rewrite Hworld. destruct (sync_trace_lists_once schedule racy c rc (world m))
      as (d & Htrace & _).
    exists d. by apply issued_app. }
  split; [rewrite Hm2; by destruct reconciled as [[?|] ?]|].
  split; [rewrite Hm2; by destruct reconciled as [[?|] ?]|].
  intros kind'. by rewrite Hm2, (Hrun _ kind').
Qed.

End watch_reconciles.

(** A deletion event for "web" with two replicas on a cluster without
    pods: two pods are created. *)
Lemma watch_syncs_embedded_spec_witness :
  pc (selecting 0 world0 [SelRecv (mkEvent Deleted (web 2 5))]) = Selecting
  ∧ podControlCalls
      (trace (world (steps in_order rm_empty 2
                       (selecting 0 world0 [SelRecv (mkEvent Deleted (web 2 5))]))))
    = [CallCreateReplica web_ctx (web 2 5); CallCreateReplica web_ctx (web 2 5)]
  ∧ steps in_order rm_empty 2 (selecting 0 world0 [SelRecv (mkEvent Added (web 2 5))])
    = steps in_order rm_empty 2 (selecting 0 world0 [SelRecv (mkEvent Deleted (web 2 5))]).
Proof.
  destruct (watch_syncs_embedded_spec in_order never (cluster [] None)
              (selecting 0 world0 [SelRecv (mkEvent Deleted (web 2 5))])
              Deleted (web 2 5) [] eq_refl eq_refl)
    as (Hworld & _ & _ & _ & Hkind).
  split; [reflexivity|]. split.
  - etrans; [exact (f_equal (λ w, podControlCalls (trace w)) Hworld)|].
    vm_compute. reflexivity.
  - exact (Hkind Added).
Defined.

Section sweep_lists.
Variable schedule : list Action → nat → list nat.
Hypothesis schedule_fair : ∀ h n, schedule h n ≡ₚ seq 0 n.
Variable racy : list Action → bool.
Variable c : Interface.

Lemma sweepSpec_lists_once (spec : ReplicationController) (w : World) :
  ∃ d, trace (snd (sweepSpec (NewReplicationManager schedule racy c) spec w)) = trace w ++ d
       ∧ List.filter is_ReqListPods d = [listingOf spec].
Proof.
  destruct (sync_trace_lists_once schedule racy c spec w) as (d & Htr & Hquiet).
  unfold sweepSpec, bind. cbn [NewReplicationManager syncHandler].
  destruct (syncReplicationController _ _ _ spec w) as [[[e|]|] w1]; simpl in *.
  - exists (listingOf spec :: d ++ [GlogErrorf "Error synchronizing: %#v" e]).
    rewrite Htr, <- app_assoc. split; [done|].
    simpl. by rewrite List.filter_app, Hquiet.
  - exists (listingOf spec :: d). split; [done|]. simpl. by rewrite Hquiet.
  - exists (listingOf spec :: d). split; [done|]. simpl. by rewrite Hquiet.
Qed.

Lemma run_all_sweep_lists (handled : list ReplicationController) (w : World) :
  fst (run_all (sweepSpec (NewReplicationManager schedule racy c) <$> handled) w) = Ret tt →
  ∃ d, trace (snd (run_all (sweepSpec (NewReplicationManager schedule racy c) <$> handled) w))
       = trace w ++ d
       ∧ List.filter is_ReqListPods d = listingOf <$> handled.
Proof.
  revert w. induction handled as [|spec handled IH]; intros w Hret.
  - exists []. by rewrite app_nil_r.
  - destruct (sweepSpec_lists_once spec w) as (d1 & Ht1 & Hf1).
    revert Hret. csimpl. unfold bind.
    destruct (sweepSpec (NewReplicationManager schedule racy c) spec w) as [[[]|] w1];
      simpl in *; [|done].
    intros Hret. destruct (IH w1 Hret) as (d2 & Ht2 & Hf2).
    exists (d1 ++ d2). rewrite Ht2, Ht1, <- app_assoc. split; [done|].
    by rewrite List.filter_app, Hf1, Hf2.
Qed.

(** A sweep that returns reads the pods of every listed specification
    exactly once: the pod listings it requests are those of the listed
    specifications, one each, in the order the goroutines happened to run. *)
Theorem synchronize_lists_pods_once_per_spec (w : World) (list : ReplicationControllerList) :
  ListReplicationControllers c (trace w) NewContext Everything = inl list →
  fst (synchronize schedule (NewReplicationManager schedule racy c) w) = Ret tt →
  List.filter is_ReqListPods
    (issued w (snd (synchronize schedule (NewReplicationManager schedule racy c) w)))
  ≡ₚ (λ spec, ReqListPods (specContext spec) (specSelector spec)) <$> RC_Items list.
Proof.
  intros Hlist Hret.
  assert (Hfits : (len (RC_Items list) < two31)%Z).
  { revert Hret. unfold synchronize. unfold bind at 1.
    unfold call_ListReplicationControllers.
    cbn [NewReplicationManager kubeClient]. rewrite Hlist.
    apply fan_out_wait_returns, len_nonneg. }
  destruct (synchronize_runs_handlers schedule schedule_fair
              (NewReplicationManager schedule racy c) w list Hlist Hfits)
    as (handled & Hperm & Hsync).
  rewrite Hsync in Hret |- *.
  destruct (run_all_sweep_lists handled _ Hret) as (d & Htrace & Hfilter).
  erewrite issued_app; [|rewrite Htrace; simpl; rewrite <- app_assoc; reflexivity].
  simpl. rewrite Hfilter. unfold listingOf. by rewrite Hperm.
Qed.

End sweep_lists.

Lemma synchronize_lists_pods_once_per_spec_witness :
  (∀ h n, in_order h n ≡ₚ seq 0 n)
  ∧ ListReplicationControllers cluster_two_specs (trace world0) NewContext Everything
    = inl {| RC_Items := [web 3 7; bare 1] |}
  ∧ fst (synchronize in_order (NewReplicationManager in_order never cluster_two_specs) world0)
    = Ret tt
  ∧ List.filter is_ReqListPods
      (issued world0
         (snd (synchronize in_order (NewReplicationManager in_order never cluster_two_specs)
                 world0)))
    ≡ₚ [ReqListPods (specContext (web 3 7)) (specSelector (web 3 7));
        ReqListPods (specContext (bare 1)) (specSelector (bare 1))].
Proof.
  assert (Hret : fst (synchronize in_order
                        (NewReplicationManager in_order never cluster_two_specs) world0)
                 = Ret tt)
    by (vm_compute; reflexivity).
  split; [exact in_order_fair|]. split; [reflexivity|]. split; [exact Hret|].
  exact (synchronize_lists_pods_once_per_spec in_order in_order_fair never cluster_two_specs
           world0 {| RC_Items := [web 3 7; bare 1] |} eq_refl Hret).
Defined.

(** Pod "a" of the listing is running, pod "b" is terminated. *)
Lemma filterActivePods_keeps_exactly_active_witness :
  mkPod "a" PodRunning ∈ five_pods
  ∧ Condition (Pod_Status (mkPod "a" PodRunning)) ≠ PodTerminated
  ∧ mkPod "a" PodRunning ∈ filterActivePods five_pods
  ∧ mkPod "b" PodTerminated ∉ filterActivePods five_pods.
Proof.
  assert (Hin : mkPod "a" PodRunning ∈ five_pods) by (apply list_elem_of_here).
  assert (Hactive : Condition (Pod_Status (mkPod "a" PodRunning)) ≠ PodTerminated)
    by discriminate.
  destruct (filterActivePods_keeps_exactly_active five_pods) as (Hiff & _ & _).
  split; [exact Hin|]. split; [exact Hactive|]. split.
  - apply Hiff. split; [exact Hin|exact Hactive].
  - intros Hb. apply Hiff in Hb as [_ Hb]. apply Hb. reflexivity.
Defined.
